(** * Passenger data analysis dashboard: the analytical layer of [app.py]

    A shallow embedding of the classes [DataLoader], [PeakCongestionAnalysis],
    [PopularRouteAnalysis], [ServiceDisruptionDetection],
    [RegionalPerformanceAnalysis] and [FilterUI] of [src/app.py], together
    with the pandas operations they call ([groupby(..).sum()],
    [sort_values(ascending=False)], [head], [concat], [value_counts],
    [mean], [std], boolean indexing with [isin], [to_datetime]).

    Numbers.  [passenger_count] is an [int64] column: a cell is an integer
    (type [Z]) and pandas adds cells up in 64 bits, so a sum that leaves the
    range wraps around ([int64_add]).  [Total_Fees] is a [float64] column
    (type [float], IEEE 754 binary64), summed per group with the
    compensated summation of pandas.

    The statistics of [detect_anomalies] are embedded twice.
    [detect_anomalies_float64] computes them as pandas does, in binary64:
    the daily totals are converted to floats, and the mean, the standard
    deviation and the comparison are those of floats.
    [detect_anomalies] is the reading in exact arithmetic: the mean is a
    rational, the standard deviation the real square root of a rational
    variance.  It is what the floats approximate, and it is the one the
    statements about real-number inequalities are made of. *)

From Stdlib Require Import Floats.
From Stdlib Require Import String Ascii.
From Stdlib Require Import List ZArith QArith Qabs Lia Bool.
From Stdlib Require Import Permutation Sorted Morphisms RelationClasses Setoid.
From Stdlib Require Import Reals Lra Qreals.
Import ListNotations.

Local Open Scope Z_scope.

(** A decimal literal of a float denotes the nearest binary64 number, as it
    does in Python. *)
#[local] Set Warnings "-inexact-float".

(** ** Outcomes of a call *)

(** The spec's error taxonomy.  The source defines no exception class of its
    own: the one failure it can produce on a well-formed frame is the one
    [pd.to_datetime] raises on a text it cannot parse, which the spec calls
    [SchemaError].  Nothing in the source raises [InvalidParameterError]. *)
Inductive error : Type :=
| SchemaError
| InvalidParameterError.

(** A call either returns a value or raises. *)
Inductive outcome (A : Type) : Type :=
| Returns (a : A)
| Raises (e : error).
Arguments Returns {A} a.
Arguments Raises {A} e.

Definition bind {A B} (c : outcome A) (k : A -> outcome B) : outcome B :=
  match c with
  | Returns a => k a
  | Raises e => Raises e
  end.

Notation "x <- c ;; k" := (bind c (fun x => k))
  (at level 61, c at next level, right associativity).

(** [mapM f l]: apply a fallible [f] to every element, left to right; the
    first failure aborts the whole traversal. *)
Fixpoint mapM {A B} (f : A -> outcome B) (l : list A) : outcome (list B) :=
  match l with
  | [] => Returns []
  | a :: l' => b <- f a ;; bs <- mapM f l' ;; Returns (b :: bs)
  end.

(** ** Dates and times *)

(** A parsed [Timestamp] value with the components the [.dt] accessor reads. *)
Record datetime : Type := mkDatetime {
  year : Z; month : Z; day : Z; hour : Z; minute : Z; second : Z
}.

(** [.dt.date]: the calendar date, time of day dropped. *)
Record date : Type := mkDate { date_year : Z; date_month : Z; date_day : Z }.

Definition dt_date (t : datetime) : date := mkDate (year t) (month t) (day t).

(** ** Keys of an index *)

(** What [groupby(sort=True)] needs of a key: a three-way comparison. *)
Class KeyOrder (K : Type) := kcompare : K -> K -> comparison.

Class KeyOrderLaws (K : Type) `{KeyOrder K} : Prop := {
  kcompare_eq : forall a b, kcompare a b = Eq <-> a = b;
  kcompare_antisym : forall a b, kcompare b a = CompOpp (kcompare a b);
  kcompare_trans : forall a b c,
      kcompare a b = Lt -> kcompare b c = Lt -> kcompare a c = Lt
}.

#[export] Instance Z_KeyOrder : KeyOrder Z := Z.compare.
#[export] Instance string_KeyOrder : KeyOrder string := String.compare.

(** Dates compare by year, then month, then day. *)
Definition date_compare (a b : date) : comparison :=
  match date_year a ?= date_year b with
  | Eq => match date_month a ?= date_month b with
          | Eq => date_day a ?= date_day b
          | c => c
          end
  | c => c
  end.

#[export] Instance date_KeyOrder : KeyOrder date := date_compare.

Definition keqb {K} `{KeyOrder K} (a b : K) : bool :=
  match kcompare a b with Eq => true | _ => false end.

Definition klt {K} `{KeyOrder K} (a b : K) : Prop := kcompare a b = Lt.

(** ** Series *)

(** A pandas [Series]: index labels paired with values, in display order. *)
Definition Series (K V : Type) : Type := list (K * V).

Definition index {K V} (s : Series K V) : list K := map fst s.
Definition values {K V} (s : Series K V) : list V := map snd s.

(** [Series.head(n)] is [iloc[:n]]: the first [n] rows, and for a negative
    [n] all rows but the last [-n]. *)
Definition head {A} (n : Z) (s : list A) : list A :=
  if 0 <=? n then firstn (Z.to_nat n) s
  else firstn (length s - Z.to_nat (- n)) s.

(** [pd.concat([a, b])] of two columns. *)
Definition concat {A} (a b : list A) : list A := a ++ b.

(** The rows of a frame whose key is [k], in their order. *)
Definition group_rows {R K} `{KeyOrder K} (key : R -> K) (k : K) (df : list R)
  : list R :=
  filter (fun r => keqb (key r) k) df.

Section Grouping.
Context {K V : Type} `{KeyOrder K}.
Variable add : V -> V -> V.

(** One row enters the group table: groups are kept ascending by key
    ([sort=True]) and a group's total accumulates in row order. *)
Fixpoint add_to_group (k : K) (v : V) (s : Series K V) : Series K V :=
  match s with
  | [] => [(k, v)]
  | (k', v') :: rest =>
      match kcompare k k' with
      | Lt => (k, v) :: s
      | Eq => (k', add v' v) :: rest
      | Gt => (k', v') :: add_to_group k v rest
      end
  end.

(** [df.groupby(key)[col].sum()] over rows of type [R]. *)
Definition groupby_sum {R} (key : R -> K) (col : R -> V) (df : list R)
  : Series K V :=
  fold_left (fun acc r => add_to_group (key r) (col r) acc) df [].
End Grouping.

Section Sorting.
Context {K V : Type}.
Variable ltb : V -> V -> bool.

(** One step of the insertion sort behind [argsort]: the new row goes
    before the first row holding a strictly greater value, so rows with
    equal values keep their order. *)
Fixpoint insert_row (p : K * V) (s : Series K V) : Series K V :=
  match s with
  | [] => [p]
  | q :: rest =>
      if ltb (snd p) (snd q) then p :: s else q :: insert_row p rest
  end.

Definition argsort (s : Series K V) : Series K V :=
  fold_left (fun acc p => insert_row p acc) s [].

(** [sort_values(ascending=False)]: pandas reverses the rows, sorts them
    ascending and reverses the result.  Which of two rows with equal
    values comes first is implementation-defined in pandas (its default
    sort is not stable); here they keep their order, and no statement
    below says which of two equal rows comes first. *)
Definition sort_values_desc (s : Series K V) : Series K V :=
  rev (argsort (rev s)).
End Sorting.

Section Counting.
Context {K : Type} `{KeyOrder K}.

(** One label enters the hash table of counts (first-seen order). *)
Fixpoint count_label (k : K) (s : Series K Z) : Series K Z :=
  match s with
  | [] => [(k, 1)]
  | (k', c) :: rest =>
      if keqb k k' then (k', c + 1) :: rest
      else (k', c) :: count_label k rest
  end.

Definition count_table (l : list K) : Series K Z :=
  fold_left (fun acc k => count_label k acc) l [].

(** [Series.value_counts()]: occurrences per label, most frequent first. *)
Definition value_counts (l : list K) : Series K Z :=
  sort_values_desc Z.ltb (count_table l).
End Counting.

(** ** 64-bit integers *)

(** The value an [int64] holds after an operation whose exact result is
    [z]: [z] reduced modulo [2^64] into [-2^63 .. 2^63 - 1]. *)
Definition int64_wrap (z : Z) : Z := (z + 2 ^ 63) mod 2 ^ 64 - 2 ^ 63.

(** Addition of two [int64] cells, as the C loops of pandas do it. *)
Definition int64_add (a b : Z) : Z := int64_wrap (a + b).

Definition in_int64 (z : Z) : Prop := - 2 ^ 63 <= z < 2 ^ 63.

(** The sum of [int64] cells taken in 64 bits, cell after cell. *)
Definition int64_sum (l : list Z) : Z :=
  match l with
  | [] => 0
  | v :: vs => fold_left int64_add vs v
  end.

(** ** Statistics of an integer series in exact arithmetic *)

(** The sum of integers, with no bound on the result. *)
Definition Zsum (l : list Z) : Z := fold_left Z.add l 0.
Definition Qsum (l : list Q) : Q := fold_left Qplus l 0%Q.

Definition count {A} (l : list A) : Z := Z.of_nat (length l).

(** [Series.mean()]: the sum over the count; NaN ([None]) on no values. *)
Definition mean (l : list Z) : option Q :=
  match l with
  | [] => None
  | _ => Some (inject_Z (Zsum l) / inject_Z (count l))%Q
  end.

(** [Series.var()] with pandas' default [ddof=1]: the squared deviations
    from the mean, summed and divided by [count - 1]; NaN when
    [count - 1 <= 0]. *)
Definition var (l : list Z) : option Q :=
  match mean l with
  | None => None
  | Some avg =>
      if count l - 1 <=? 0 then None
      else Some (Qsum (map (fun x => (avg - inject_Z x) ^ 2)%Q l)
                 / inject_Z (count l - 1))%Q
  end.

(** The real number [coeff * sqrt radicand], kept symbolic so that
    comparisons against it stay computable. *)
Record surd : Type := mkSurd { coeff : Q; radicand : Q }.

Definition surd_R (s : surd) : R := (Q2R (coeff s) * sqrt (Q2R (radicand s)))%R.

(** [Series.std()] is the square root of [Series.var()]. *)
Definition std (l : list Z) : option surd := option_map (mkSurd 1) (var l).

Definition Qltb (a b : Q) : bool := negb (Qle_bool b a).

(** [a > c * sqrt v], decided on the squares ([0 <= v]). *)
Definition Qgt_surd (a : Q) (s : surd) : bool :=
  let c := coeff s in
  let v := radicand s in
  if Qle_bool 0 c then Qltb 0 a && Qltb (c * c * v) (a * a)
  else if Qle_bool 0 a then Qltb 0 a || Qltb 0 v
  else Qltb (a * a) (c * c * v).

(** Arithmetic on possibly-NaN numbers; every comparison with NaN is false. *)
Definition sub (t : Z) (m : option Q) : option Q :=
  option_map (fun m => inject_Z t - m)%Q m.
Definition abs (x : option Q) : option Q := option_map Qabs x.
Definition mul (z : Q) (s : option surd) : option surd :=
  option_map (fun s => mkSurd (z * coeff s) (radicand s)) s.
Definition gt (x : option Q) (s : option surd) : bool :=
  match x, s with
  | Some a, Some b => Qgt_surd a b
  | _, _ => false
  end.

(** ** Statistics of an integer series in binary64 *)

(** [astype('f8')] of an [int64] cell: the nearest float, ties to even. *)
Definition to_float64 (z : Z) : float :=
  SF2Prim (binary_normalize prec emax z 0 false).

Section Float64Statistics.
(** [ndarray.sum(dtype=float64)] of an [int64] array ([isum], applied to
    the cells converted to floats) and of a [float64] array ([fsum]).  In
    which order numpy adds the elements up (in blocks, pairwise) is
    numpy's own; each sum enters as a function of the elements in their
    order. *)
Variables isum fsum : list float -> float.

(** [Series.mean()] of an [int64] series ([nanops.nanmean]): the cells are
    summed as floats and the sum is divided by the count; NaN on no
    values. *)
Definition mean64 (l : list Z) : float :=
  if 0 <? count l
  then (isum (map to_float64 l) / to_float64 (count l))%float
  else nan.

(** [Series.var()] with [ddof=1] ([nanops.nanvar]): NaN when
    [count <= ddof]; else the two-pass formula over the cells converted
    to floats, the squared differences between their mean and the cells
    summed and divided by [count - ddof]. *)
Definition var64 (l : list Z) : float :=
  if count l - 1 <=? 0 then nan
  else
    let avg := (fsum (map to_float64 l) / to_float64 (count l))%float in
    (fsum (map (fun x => let d := (avg - to_float64 x)%float in (d * d)%float)
               l)
     / to_float64 (count l - 1))%float.

(** [Series.std()] is [np.sqrt] of [Series.var()]. *)
Definition std64 (l : list Z) : float := PrimFloat.sqrt (var64 l).
End Float64Statistics.

(** For fewer than eight values numpy adds them one after the other. *)
Definition sequential_sum (l : list float) : float :=
  fold_left PrimFloat.add l 0%float.

(** One row enters the compensated (Kahan) summation of pandas'
    [group_sum]: the running sum and the running compensation, which is
    reset when it is NaN. *)
Definition kahan_add (acc : float * float) (val : float) : float * float :=
  let '(sumx, compensation) := acc in
  let y := (val - compensation)%float in
  let t := (sumx + y)%float in
  let c := ((t - sumx) - y)%float in
  (t, if PrimFloat.eqb c c then c else 0%float).

Definition kahan_sum (l : list float) : float :=
  fst (fold_left kahan_add l (0%float, 0%float)).

(** [df.groupby(key)[col].sum()] of a [float64] column: the labels
    ascending, each with the compensated sum of its rows in row order. *)
Definition groupby_sum_float64 {R K} `{KeyOrder K} (key : R -> K)
           (col : R -> float) (df : list R) : Series K float :=
  map (fun k => (k, kahan_sum (map col (group_rows key k df))))
      (index (groupby_sum (fun seen _ => seen) key (fun _ => tt) df)).

(** ** The table *)

(** One row of a frame; [T] is what the [Timestamp] column holds.  The two
    optional times may be NaT ([None]). *)
Record row_of (T : Type) : Type := mkRow {
  Timestamp : T;
  Departure_Time : option datetime;
  Arrival_Time : option datetime;
  passenger_count : Z;
  Route_ID : string;
  Entry_Station_ID : string;
  Exit_Station_ID : string;
  Region : string;
  Total_Fees : float
}.
Arguments mkRow {T}.
Arguments Timestamp {T} r.
Arguments Departure_Time {T} r.
Arguments Arrival_Time {T} r.
Arguments passenger_count {T} r.
Arguments Route_ID {T} r.
Arguments Entry_Station_ID {T} r.
Arguments Exit_Station_ID {T} r.
Arguments Region {T} r.
Arguments Total_Fees {T} r.

(** A row of the table the analyses work on: the columns they read are
    filled in every row, the [Timestamp] too (the invariant of the spec's
    data model). *)
Abbreviation row := (row_of datetime).

Definition DataFrame : Type := list row.

(** A row as [load_data] returns it: the [Timestamp] may be NaT. *)
Abbreviation loaded_row := (row_of (option datetime)).

(** [df['Timestamp'].dt.date], row by row. *)
Definition timestamp_date (r : row) : date := dt_date (Timestamp r).

(** A default argument: [None] when the caller omits it. *)
Definition default_arg {A} (d : A) (a : option A) : A :=
  match a with Some x => x | None => d end.

(** ** class DataLoader *)

(** One row as [pd.read_csv] delivers it: numeric columns typed, the three
    time columns still text; a cell [pd.read_csv] reads as missing (an
    empty cell, or one of its NA markers) is [None]. *)
Record csv_row : Type := mkCsvRow {
  csv_Timestamp : option string;
  csv_Departure_Time : option string;
  csv_Arrival_Time : option string;
  csv_passenger_count : Z;
  csv_Route_ID : string;
  csv_Entry_Station_ID : string;
  csv_Exit_Station_ID : string;
  csv_Region : string;
  csv_Total_Fees : float
}.

(** What [pd.to_datetime] makes of a text: a date-time, the null value NaT
    (for a null text such as ['NaT']), or nothing. *)
Inductive parsed : Type :=
| Parsed (t : datetime)
| NullText
| Unparseable.

Module DataLoader.
Section WithParser.
(** The date-time grammar of [pd.to_datetime] is pandas' own; it enters
    as the function telling what a text parses to.  pandas settles on one
    format per column, so the function is given the column the text
    stands in. *)
Variable parse_datetime : list (option string) -> string -> parsed.

(** One cell under the default [errors='raise']: a missing cell and a
    null text give NaT, a text that does not parse raises. *)
Definition convert_cell (column : list (option string)) (cell : option string)
  : outcome (option datetime) :=
  match cell with
  | None => Returns None
  | Some s =>
      match parse_datetime column s with
      | Parsed t => Returns (Some t)
      | NullText => Returns None
      | Unparseable => Raises SchemaError
      end
  end.

(** [pd.to_datetime(column)]. *)
Definition to_datetime (column : list (option string))
  : outcome (list (option datetime)) :=
  mapM (convert_cell column) column.

(** One cell under [errors='coerce']: NaT instead of a failure. *)
Definition coerce_cell (column : list (option string)) (cell : option string)
  : option datetime :=
  match cell with
  | None => None
  | Some s =>
      match parse_datetime column s with
      | Parsed t => Some t
      | NullText => None
      | Unparseable => None
      end
  end.

(** [pd.to_datetime(column, errors='coerce')]. *)
Definition to_datetime_coerce (column : list (option string))
  : list (option datetime) :=
  map (coerce_cell column) column.

(** The three assignments [df[col] = ...]: the converted columns replace
    the text columns, row by row. *)
Fixpoint assign_columns (csv : list csv_row)
         (timestamps departures arrivals : list (option datetime))
  : list loaded_row :=
  match csv, timestamps, departures, arrivals with
  | c :: csv', t :: timestamps', d :: departures', a :: arrivals' =>
      mkRow t d a (csv_passenger_count c) (csv_Route_ID c)
            (csv_Entry_Station_ID c) (csv_Exit_Station_ID c)
            (csv_Region c) (csv_Total_Fees c)
      :: assign_columns csv' timestamps' departures' arrivals'
  | _, _, _, _ => []
  end.

(** [load_data]: the conversion of the [Timestamp] column aborts the call
    on the first text that does not parse; the two lenient conversions
    cannot fail. *)
Definition load_data (csv : list csv_row) : outcome (list loaded_row) :=
  timestamps <- to_datetime (map csv_Timestamp csv) ;;
  let departures := to_datetime_coerce (map csv_Departure_Time csv) in
  let arrivals := to_datetime_coerce (map csv_Arrival_Time csv) in
  Returns (assign_columns csv timestamps departures arrivals).
End WithParser.
End DataLoader.

(** ** class PeakCongestionAnalysis *)
Module PeakCongestionAnalysis.
Definition hourly_analysis (df : DataFrame) : outcome (Series Z Z) :=
  Returns (groupby_sum int64_add (fun r => hour (Timestamp r))
                       passenger_count df).

Definition daily_analysis (df : DataFrame) : outcome (Series Z Z) :=
  Returns (groupby_sum int64_add (fun r => day (Timestamp r))
                       passenger_count df).

Definition monthly_analysis (df : DataFrame) : outcome (Series Z Z) :=
  Returns (groupby_sum int64_add (fun r => month (Timestamp r))
                       passenger_count df).

Definition yearly_analysis (df : DataFrame) : outcome (Series Z Z) :=
  Returns (groupby_sum int64_add (fun r => year (Timestamp r))
                       passenger_count df).
End PeakCongestionAnalysis.

(** ** class PopularRouteAnalysis *)
Module PopularRouteAnalysis.
Definition top_routes (df : DataFrame) (n : option Z)
  : outcome (Series string Z) :=
  let n := default_arg 5 n in
  Returns (head n (sort_values_desc Z.ltb
                     (groupby_sum int64_add Route_ID passenger_count df))).

Definition top_transfer_points (df : DataFrame) (n : option Z)
  : outcome (Series string Z) :=
  let n := default_arg 5 n in
  let transfers := concat (map Entry_Station_ID df) (map Exit_Station_ID df) in
  Returns (head n (value_counts transfers)).
End PopularRouteAnalysis.

(** ** class ServiceDisruptionDetection *)
Module ServiceDisruptionDetection.
(** [detect_anomalies] with the statistics in exact arithmetic. *)
Definition detect_anomalies (df : DataFrame) (z_thresh : option Q)
  : outcome (Series date Z * Series date Z) :=
  let z_thresh := default_arg 2.5%Q z_thresh in
  let daily_counts :=
    groupby_sum int64_add timestamp_date passenger_count df in
  let mean := mean (values daily_counts) in
  let std := std (values daily_counts) in
  let anomalies :=
    filter (fun d => gt (abs (sub (snd d) mean)) (mul z_thresh std))
           daily_counts in
  Returns (anomalies, daily_counts).

(** [detect_anomalies] with the statistics in binary64, as pandas has
    them: [daily_counts - mean] converts each total to a float, and
    [x > y] is false when either side is NaN. *)
Definition detect_anomalies_float64 (isum fsum : list float -> float)
           (df : DataFrame) (z_thresh : option float)
  : outcome (Series date Z * Series date Z) :=
  let z_thresh := default_arg 2.5%float z_thresh in
  let daily_counts :=
    groupby_sum int64_add timestamp_date passenger_count df in
  let mean := mean64 isum (values daily_counts) in
  let std := std64 fsum (values daily_counts) in
  let anomalies :=
    filter (fun d => (z_thresh * std
                      <? PrimFloat.abs (to_float64 (snd d) - mean))%float)
           daily_counts in
  Returns (anomalies, daily_counts).
End ServiceDisruptionDetection.

(** ** class RegionalPerformanceAnalysis *)
Module RegionalPerformanceAnalysis.
Definition region_passenger_trends (df : DataFrame)
  : outcome (Series string Z) :=
  Returns (sort_values_desc Z.ltb
             (groupby_sum int64_add Region passenger_count df)).

Definition region_revenue_trends (df : DataFrame)
  : outcome (Series string float) :=
  Returns (sort_values_desc PrimFloat.ltb
             (groupby_sum_float64 Region Total_Fees df)).
End RegionalPerformanceAnalysis.

(** ** class FilterUI *)

(** Frames are objects and a variable holds a reference to one.  Boolean
    indexing [df[mask]] builds a new frame; the assignment [df = df[mask]]
    rebinds the local name and leaves the old object as it was. *)
Definition ref : Type := nat.
Definition heap : Type := list DataFrame.

Definition deref (h : heap) (r : ref) : DataFrame := nth r h [].

Definition new_frame (df : DataFrame) (h : heap) : ref * heap :=
  (length h, h ++ [df]).

(** [column.isin(selected)] on one cell. *)
Definition isin (x : string) (selected : list string) : bool :=
  existsb (String.eqb x) selected.

Definition getitem_mask (mask : row -> bool) (df : ref) (h : heap)
  : ref * heap :=
  new_frame (filter mask (deref h df)) h.

(** Truth value of a Python list: non-empty. *)
Definition truthy {A} (l : list A) : bool :=
  match l with [] => false | _ => true end.

Module FilterUI.
(** [regions] and [routes] are what the two sidebar multiselects return. *)
Definition apply_filters (regions routes : list string) (df : ref) (h : heap)
  : ref * heap :=
  let '(df, h) :=
    if truthy regions
    then getitem_mask (fun r => isin (Region r) regions) df h
    else (df, h) in
  let '(df, h) :=
    if truthy routes
    then getitem_mask (fun r => isin (Route_ID r) routes) df h
    else (df, h) in
  (df, h).
End FilterUI.

(** ** Vocabulary of the statements *)

(** The value a series holds at a label. *)
Definition lookup {K V} `{KeyOrder K} (k : K) (s : Series K V) : option V :=
  option_map snd (find (fun p => keqb k (fst p)) s).

(** How often a label occurs in a column. *)
Definition occurrences {K} `{KeyOrder K} (k : K) (l : list K) : Z :=
  count (filter (keqb k) l).

(** [p] may stand before [q] in ascending order: [q] is not below [p]. *)
Definition may_precede {K V} (ltb : V -> V -> bool) (p q : K * V) : Prop :=
  ltb (snd q) (snd p) = false.

(** Index labels strictly ascending. *)
Definition ascending_index {K V} `{KeyOrder K} (s : Series K V) : Prop :=
  StronglySorted klt (index s).

(** Values descending. *)
Definition descending {K} (s : Series K Z) : Prop :=
  StronglySorted (fun p q => snd q <= snd p) s.

(** ** The statistics in the spec's words, over the reals *)

Definition Rsum (l : list R) : R := fold_right Rplus 0%R l.

(** The sample mean: the sum of the values over their number. *)
Definition sample_mean (l : list Z) : R :=
  (Rsum (map IZR l) / INR (length l))%R.

(** The unbiased sample standard deviation: the square root of the summed
    squared deviations from the mean over [N - 1]. *)
Definition sample_std (l : list Z) : R :=
  sqrt (Rsum (map (fun x => (IZR x - sample_mean l) ^ 2)%R l)
        / (INR (length l) - 1))%R.

(** [a] is [b] with some rows left out, the others in their order. *)
Inductive submapping {A} : list A -> list A -> Prop :=
| submapping_nil : submapping [] []
| submapping_keep x a b : submapping a b -> submapping (x :: a) (x :: b)
| submapping_drop x a b : submapping a b -> submapping a (x :: b).

(** ** Sample tables *)

(** A ride on 2024-01-[d] at [h] o'clock. *)
Definition ride (d h : Z) (passengers : Z) (route entry exit region : string)
           (fees : float) : row :=
  mkRow (mkDatetime 2024 1 d h 0 0) None None passengers route entry exit
        region fees.

(** The spec's three days with totals 100, 105 and 500. *)
Definition three_days : DataFrame :=
  [ ride 3 9 500 "R2" "S2" "S3" "South" 750;
    ride 1 8 60 "R1" "S1" "S2" "North" 90;
    ride 2 8 105 "R1" "S1" "S2" "North" 157.5;
    ride 1 17 40 "R2" "S2" "S1" "South" 60 ].

(** The spec's route records [(R1,10),(R2,50),(R1,5)]. *)
Definition three_rides : DataFrame :=
  [ ride 1 8 10 "R1" "S1" "S2" "North" 15;
    ride 1 9 50 "R2" "S2" "S3" "South" 75;
    ride 2 8 5 "R1" "S1" "S2" "North" 7.5 ].

(** One record entering and leaving at the same station. *)
Definition round_trip : DataFrame :=
  [ ride 1 8 1 "R1" "S1" "S1" "North" 1.5 ].

Definition jan (d : Z) : date := mkDate 2024 1 d.

(** Two rides of the same hour, day, route and region whose passenger
    counts add up to [2^63], one more than an [int64] holds. *)
Definition two_crowds : DataFrame :=
  [ ride 1 8 (2 ^ 62) "R1" "S1" "S2" "North" 1;
    ride 1 8 (2 ^ 62) "R1" "S1" "S2" "North" 1 ].

(** Three days with the totals [2^53], [2^53 + 1] and [2^53 + 2]; the
    middle one is not a binary64 number. *)
Definition crowded_days : DataFrame :=
  [ ride 1 8 (2 ^ 53) "R1" "S1" "S2" "North" 1;
    ride 2 8 (2 ^ 53 + 1) "R1" "S1" "S2" "North" 1;
    ride 3 8 (2 ^ 53 + 2) "R1" "S1" "S2" "North" 1 ].

(** Five days with the same total [2^53 - 1]. *)
Definition equal_crowds : DataFrame :=
  map (fun d => ride d 8 (2 ^ 53 - 1) "R1" "S1" "S2" "North" 1)
      [1; 2; 3; 4; 5].

(** Three days with the same total 7. *)
Definition equal_days : DataFrame :=
  map (fun d => ride d 8 7 "R1" "S1" "S2" "North" 1) [1; 2; 3].

(** Three rides with the fees 0.1, 0.2 and 0.3, the last two in the same
    region. *)
Definition three_fees : DataFrame :=
  [ ride 1 8 1 "R1" "S1" "S2" "North" 0.1;
    ride 1 9 1 "R1" "S1" "S2" "South" 0.2;
    ride 1 10 1 "R1" "S1" "S2" "South" 0.3 ].

(** ** Names for what the analyses compute *)

(** The daily totals of [detect_anomalies], and the days it flags in
    exact arithmetic and in binary64. *)
Definition daily_totals (df : DataFrame) : Series date Z :=
  groupby_sum int64_add timestamp_date passenger_count df.

Definition anomalous_days (df : DataFrame) (z : Q) : Series date Z :=
  filter (fun d => gt (abs (sub (snd d) (mean (values (daily_totals df)))))
                      (mul z (std (values (daily_totals df)))))
         (daily_totals df).

(** The test [(daily_counts - mean).abs() > z_thresh * std] on one total,
    in binary64. *)
Definition exceeds64 (isum fsum : list float -> float) (z : float)
           (vs : list Z) (t : Z) : bool :=
  (z * std64 fsum vs <? PrimFloat.abs (to_float64 t - mean64 isum vs))%float.

Definition anomalous_days_float64 (isum fsum : list float -> float)
           (df : DataFrame) (z : float) : Series date Z :=
  filter (fun d => exceeds64 isum fsum z (values (daily_totals df)) (snd d))
         (daily_totals df).

(** The spec's statistics evaluated in binary64: the mean is the sum of
    the values over their number [N]; the unbiased standard deviation is
    the square root of the summed squared deviations from the mean over
    [N - 1]. *)
Definition float64_mean (isum : list float -> float) (l : list Z) : float :=
  (isum (map to_float64 l) / to_float64 (count l))%float.

Definition float64_std (fsum : list float -> float) (l : list Z) : float :=
  let m := (fsum (map to_float64 l) / to_float64 (count l))%float in
  PrimFloat.sqrt
    (fsum (map (fun x => ((m - to_float64 x) * (m - to_float64 x))%float) l)
     / to_float64 (count l - 1))%float.

(** The full rankings [top_routes] and [top_transfer_points] cut with
    [head]. *)
Definition route_ranking (df : DataFrame) : Series string Z :=
  sort_values_desc Z.ltb (groupby_sum int64_add Route_ID passenger_count df).

Definition station_ranking (df : DataFrame) : Series string Z :=
  value_counts (concat (map Entry_Station_ID df) (map Exit_Station_ID df)).

(** Entries plus exits at a station. *)
Definition station_count (s : string) (df : DataFrame) : Z :=
  occurrences s (map Entry_Station_ID df)
  + occurrences s (map Exit_Station_ID df).

(** The call returns a series whose values add up to [total]: with the
    sum taken in 64 bits, as [Series.sum()] takes it, and with the exact
    sum. *)
Definition returns_int64_total {K} (o : outcome (Series K Z)) (total : Z)
  : Prop :=
  exists s, o = Returns s /\ int64_sum (values s) = total.

Definition returns_total {K} (o : outcome (Series K Z)) (total : Z) : Prop :=
  exists s, o = Returns s /\ Zsum (values s) = total.

(** A parser knowing one date-time and the null text, whatever the
    column, for the loader's examples. *)
Definition parse_eight_o_clock (column : list (option string)) (s : string)
  : parsed :=
  if String.eqb s "2024-01-01 08:00:00"
  then Parsed (mkDatetime 2024 1 1 8 0 0)
  else if String.eqb s "NaT" then NullText
  else Unparseable.

Definition csv_ride (timestamp departure arrival : option string) : csv_row :=
  mkCsvRow timestamp departure arrival 10 "R1" "S1" "S2" "North" 15.

(** The cell holds a text that parses to the date-time [t]. *)
Definition parses_to (parse : string -> parsed) (cell : option string)
           (t : datetime) : Prop :=
  exists s, cell = Some s /\ parse s = Parsed t.

(** The cell is missing, or holds a text that parses to no date-time. *)
Definition unusable (parse : string -> parsed) (cell : option string) : Prop :=
  cell = None \/ exists s, cell = Some s /\ forall t, parse s <> Parsed t.

(** The cell holds a text that does not parse, not even to the null
    value. *)
Definition unparseable (parse : string -> parsed) (cell : option string)
  : Prop :=
  exists s, cell = Some s /\ parse s = Unparseable.

(** A loaded row agrees with the row [c] of the file it comes from: each
    time column holds a date-time exactly when its cell holds a text that
    parses to it (the three columns may follow different formats), and the
    other columns are as they were. *)
Definition loaded_from (timestamp_parser departure_parser arrival_parser
                        : string -> parsed)
           (c : csv_row) (r : loaded_row) : Prop :=
  (forall t, Timestamp r = Some t <->
             parses_to timestamp_parser (csv_Timestamp c) t)
  /\ (forall t, Departure_Time r = Some t <->
                parses_to departure_parser (csv_Departure_Time c) t)
  /\ (forall t, Arrival_Time r = Some t <->
                parses_to arrival_parser (csv_Arrival_Time c) t)
  /\ passenger_count r = csv_passenger_count c
  /\ Route_ID r = csv_Route_ID c
  /\ Entry_Station_ID r = csv_Entry_Station_ID c
  /\ Exit_Station_ID r = csv_Exit_Station_ID c
  /\ Region r = csv_Region c
  /\ Total_Fees r = csv_Total_Fees c.

(** ** Vocabulary of the further properties *)

(** [s] lists, ascending by label, every key of [df] once with the sum of
    [col] over the rows of that key, taken in 64 bits; the sum is the
    exact one when that fits into 64 bits. *)
Definition grouped_totals {R K} `{KeyOrder K} (key : R -> K) (col : R -> Z)
           (df : list R) (s : Series K Z) : Prop :=
  ascending_index s
  /\ (forall k t, In (k, t) s <->
                  In k (map key df)
                  /\ t = int64_sum (map col (group_rows key k df)))
  /\ (forall k t, In (k, t) s ->
                  in_int64 (Zsum (map col (group_rows key k df))) ->
                  t = Zsum (map col (group_rows key k df))).

(** The number of different labels in a column. *)
Definition distinct (l : list string) : Z := count (nodup string_dec l).

(** The length [head n] leaves of a series of [len] rows. *)
Definition head_length (n len : Z) : Z :=
  if 0 <=? n then Z.min n len else Z.max 0 (len + n).

(** The deviation of a value from the mean of the series, and the sum of
    the squared deviations. *)
Definition deviation (vs : list Z) (x : Z) : R := (IZR x - sample_mean vs)%R.

Definition squared_deviations (vs : list Z) : R :=
  Rsum (map (fun x => deviation vs x * deviation vs x)%R vs).

(** Eight quiet days and a ninth with one passenger. *)
Definition nine_days : DataFrame :=
  map (fun d => ride d 8 0 "R1" "S1" "S2" "North" 0) [1; 2; 3; 4; 5; 6; 7; 8]
  ++ [ride 9 8 1 "R1" "S1" "S2" "North" 1.5].

(** ** What the two multiselects of [apply_filters] offer *)

(** [Series.unique()]: the different values, in order of first appearance. *)
Definition unique (l : list string) : list string :=
  fold_left (fun seen x => if isin x seen then seen else seen ++ [x]) l [].

(** The options of "Select Regions": [df['Region'].unique()]. *)
Definition region_options (df : DataFrame) : list string :=
  unique (map Region df).

(** The options of "Select Routes": [df['Route_ID'].unique()] of the frame
    as the region selection left it. *)
Definition route_options (regions : list string) (df : DataFrame)
  : list string :=
  unique (map Route_ID
              (if truthy regions
               then filter (fun r => isin (Region r) regions) df
               else df)).

(** * Properties *)


(** ** The key orders are lawful *)

Lemma Z_KeyOrderLaws_holds : KeyOrderLaws Z.
Proof.
  constructor; unfold kcompare, Z_KeyOrder.
  - intros a b. apply Z.compare_eq_iff.
  - intros a b. apply Z.compare_antisym.
  - intros a b c. rewrite !Z.compare_lt_iff. lia.
Qed.
#[export] Existing Instance Z_KeyOrderLaws_holds.

Lemma ascii_compare_refl (a : ascii) : Ascii.compare a a = Eq.
Proof. unfold Ascii.compare. apply N.compare_refl. Qed.

Lemma ascii_compare_trans (a b c : ascii) :
  Ascii.compare a b = Lt -> Ascii.compare b c = Lt -> Ascii.compare a c = Lt.
Proof. unfold Ascii.compare. rewrite !N.compare_lt_iff. lia. Qed.

Lemma string_compare_refl (s : string) : String.compare s s = Eq.
Proof.
  induction s as [|a s IH]; simpl; [reflexivity|].
  now rewrite ascii_compare_refl.
Qed.

Lemma string_compare_trans (s1 s2 s3 : string) :
  String.compare s1 s2 = Lt -> String.compare s2 s3 = Lt ->
  String.compare s1 s3 = Lt.
Proof.
  revert s2 s3.
  induction s1 as [|a s1 IH]; intros [|b s2] [|c s3]; simpl;
    try discriminate; try reflexivity.
  destruct (Ascii.compare a b) eqn:Eab; try discriminate;
    destruct (Ascii.compare b c) eqn:Ebc; try discriminate; intros H12 H23.
  - apply Ascii.compare_eq_iff in Eab, Ebc. subst.
    rewrite ascii_compare_refl. eauto.
  - apply Ascii.compare_eq_iff in Eab. subst. now rewrite Ebc.
  - apply Ascii.compare_eq_iff in Ebc. subst. now rewrite Eab.
  - now rewrite (ascii_compare_trans _ _ _ Eab Ebc).
Qed.

Lemma string_KeyOrderLaws_holds : KeyOrderLaws string.
Proof.
  constructor; unfold kcompare, string_KeyOrder.
  - intros a b. split.
    + apply String.compare_eq_iff.
    + intros ->. apply string_compare_refl.
  - intros a b. apply String.compare_antisym.
  - apply string_compare_trans.
Qed.
#[export] Existing Instance string_KeyOrderLaws_holds.

Lemma date_KeyOrderLaws_holds : KeyOrderLaws date.
Proof.
  constructor; unfold kcompare, date_KeyOrder, date_compare.
  - intros [y1 m1 d1] [y2 m2 d2]; simpl. split.
    + destruct (y1 ?= y2) eqn:Ey; try discriminate.
      destruct (m1 ?= m2) eqn:Em; try discriminate.
      intros Ed.
      apply Z.compare_eq_iff in Ey, Em, Ed. now subst.
    + intros [= -> -> ->]. now rewrite !Z.compare_refl.
  - intros [y1 m1 d1] [y2 m2 d2]; simpl.
    rewrite (Z.compare_antisym y1 y2), (Z.compare_antisym m1 m2),
      (Z.compare_antisym d1 d2).
    destruct (y1 ?= y2); simpl; try reflexivity.
    destruct (m1 ?= m2); simpl; reflexivity.
  - intros [y1 m1 d1] [y2 m2 d2] [y3 m3 d3]; simpl.
    destruct (Z.compare_spec y1 y2), (Z.compare_spec y2 y3);
      try discriminate; subst;
      destruct (Z.compare_spec m1 m2), (Z.compare_spec m2 m3);
      try discriminate; subst;
      rewrite ?Z.compare_refl, ?Z.compare_lt_iff; intros; subst;
      repeat match goal with
        | |- context [?a ?= ?b] => destruct (Z.compare_spec a b)
        end; try reflexivity; try lia.
Qed.
#[export] Existing Instance date_KeyOrderLaws_holds.

Section KeyFacts.
Context {K : Type} `{KeyOrderLaws K}.

Lemma kcompare_refl (a : K) : kcompare a a = Eq.
Proof. now apply kcompare_eq. Qed.

Lemma keqb_eq (a b : K) : keqb a b = true <-> a = b.
Proof.
  unfold keqb. rewrite <- kcompare_eq.
  destruct (kcompare a b); split; congruence.
Qed.

Lemma keqb_refl (a : K) : keqb a a = true.
Proof. now apply keqb_eq. Qed.

Lemma keqb_neq (a b : K) : keqb a b = false <-> a <> b.
Proof.
  rewrite <- keqb_eq. destruct (keqb a b); split; congruence.
Qed.

Lemma keqb_sym (a b : K) : keqb a b = keqb b a.
Proof.
  destruct (keqb a b) eqn:E1, (keqb b a) eqn:E2; try reflexivity.
  - apply keqb_eq in E1. subst. now rewrite keqb_refl in E2.
  - apply keqb_eq in E2. subst. now rewrite keqb_refl in E1.
Qed.

Lemma kcompare_gt_lt (a b : K) : kcompare a b = Gt -> kcompare b a = Lt.
Proof. intros E. now rewrite kcompare_antisym, E. Qed.

Lemma klt_irrefl (a : K) : ~ klt a a.
Proof. unfold klt. now rewrite kcompare_refl. Qed.

Lemma klt_neq (a b : K) : klt a b -> a <> b.
Proof. intros L ->. exact (klt_irrefl _ L). Qed.
End KeyFacts.

(** ** Sums *)

Lemma fold_add_shift (l : list Z) (a : Z) :
  fold_left Z.add l a = a + fold_left Z.add l 0.
Proof.
  revert a. induction l as [|x l IH]; intros a; simpl; [lia|].
  rewrite (IH (a + x)), (IH x). lia.
Qed.

Lemma Zsum_nil : Zsum [] = 0.
Proof. reflexivity. Qed.

Lemma Zsum_cons (x : Z) (l : list Z) : Zsum (x :: l) = x + Zsum l.
Proof. unfold Zsum. simpl. apply fold_add_shift. Qed.

Lemma Zsum_app (l1 l2 : list Z) : Zsum (l1 ++ l2) = Zsum l1 + Zsum l2.
Proof.
  induction l1 as [|x l1 IH]; simpl; [reflexivity|].
  rewrite !Zsum_cons, IH. lia.
Qed.

Lemma Zsum_perm (l1 l2 : list Z) : Permutation l1 l2 -> Zsum l1 = Zsum l2.
Proof.
  induction 1; rewrite ?Zsum_cons in *; lia.
Qed.

(** ** Sums in 64 bits *)

Ltac int64_consts :=
  change (2 ^ 64) with 18446744073709551616 in *;
  change (2 ^ 63) with 9223372036854775808 in *.

Lemma int64_wrap_small (z : Z) : in_int64 z -> int64_wrap z = z.
Proof.
  unfold in_int64, int64_wrap. intros Hz. int64_consts.
  rewrite Z.mod_small; lia.
Qed.

Lemma int64_wrap_in (z : Z) : in_int64 (int64_wrap z).
Proof.
  unfold in_int64, int64_wrap.
  pose proof (Z.mod_pos_bound (z + 2 ^ 63) (2 ^ 64)) as Hb.
  int64_consts. lia.
Qed.

Lemma int64_wrap_idem (z : Z) : int64_wrap (int64_wrap z) = int64_wrap z.
Proof. apply int64_wrap_small, int64_wrap_in. Qed.

Lemma int64_wrap_add_l (a b : Z) :
  int64_wrap (int64_wrap a + b) = int64_wrap (a + b).
Proof.
  unfold int64_wrap. f_equal.
  replace ((a + 2 ^ 63) mod 2 ^ 64 - 2 ^ 63 + b + 2 ^ 63)
    with ((a + 2 ^ 63) mod 2 ^ 64 + b) by lia.
  rewrite Z.add_mod_idemp_l by (int64_consts; lia).
  f_equal. lia.
Qed.

Lemma int64_wrap_add_r (a b : Z) :
  int64_wrap (a + int64_wrap b) = int64_wrap (a + b).
Proof.
  rewrite (Z.add_comm a (int64_wrap b)), int64_wrap_add_l. f_equal. lia.
Qed.

(** Sums that agree in 64 bits still agree after one more cell. *)
Lemma int64_wrap_add_cong (x y c : Z) :
  int64_wrap x = int64_wrap y -> int64_wrap (x + c) = int64_wrap (y + c).
Proof.
  intros E. now rewrite <- (int64_wrap_add_l x), E, int64_wrap_add_l.
Qed.

Lemma fold_int64_add (vs : list Z) (a : Z) :
  fold_left int64_add vs (int64_wrap a) = int64_wrap (a + Zsum vs).
Proof.
  revert a. induction vs as [|x vs IH]; intros a; simpl.
  - now rewrite Zsum_nil, Z.add_0_r.
  - unfold int64_add at 2. rewrite int64_wrap_add_l, IH, Zsum_cons.
    f_equal. lia.
Qed.

(** From the second cell on, the sum in 64 bits is the exact sum wrapped
    around. *)
Lemma int64_sum_wraps (v x : Z) (vs : list Z) :
  int64_sum (v :: x :: vs) = int64_wrap (Zsum (v :: x :: vs)).
Proof.
  simpl. unfold int64_add at 2. rewrite fold_int64_add, !Zsum_cons.
  f_equal. lia.
Qed.

(** A sum that fits into 64 bits is found exactly, whatever happened on
    the way. *)
Lemma int64_sum_exact (l : list Z) : in_int64 (Zsum l) -> int64_sum l = Zsum l.
Proof.
  destruct l as [|v [|x vs]]; intros Hin.
  - reflexivity.
  - simpl. now rewrite Zsum_cons, Zsum_nil, Z.add_0_r.
  - rewrite int64_sum_wraps. now apply int64_wrap_small.
Qed.

Lemma int64_sum_perm (l l' : list Z) :
  Permutation l l' -> int64_sum l = int64_sum l'.
Proof.
  intros Hp. pose proof (Permutation_length Hp) as Hlen.
  destruct l as [|v [|x vs]], l' as [|v' [|x' vs']]; try discriminate.
  - reflexivity.
  - apply Permutation_length_1 in Hp. now subst.
  - rewrite !int64_sum_wraps. f_equal. now apply Zsum_perm.
Qed.

(** Part of the cells cannot add up to more than all their absolute
    values. *)
Lemma Zsum_filter_bound {A} (col : A -> Z) (f : A -> bool) (l : list A) :
  Z.abs (Zsum (map col (filter f l))) <= Zsum (map Z.abs (map col l)).
Proof.
  induction l as [|a l IH]; cbn [map filter].
  - rewrite Zsum_nil. simpl. lia.
  - rewrite (Zsum_cons (Z.abs (col a))).
    destruct (f a); cbn [map]; rewrite ?Zsum_cons; lia.
Qed.

Lemma filter_all {A} (f : A -> bool) (l : list A) :
  (forall x, In x l -> f x = true) -> filter f l = l.
Proof.
  induction l as [|x l IH]; simpl; intros Hall; [reflexivity|].
  rewrite (Hall x) by now left. f_equal. apply IH.
  intros; apply Hall; now right.
Qed.

Lemma Permutation_filter {A} (f : A -> bool) (l l' : list A) :
  Permutation l l' -> Permutation (filter f l) (filter f l').
Proof.
  induction 1 as [|x l l' Hp IH|x y l|l l' l'' H1 IH1 H2 IH2]; simpl.
  - constructor.
  - destruct (f x); [now constructor|exact IH].
  - destruct (f x), (f y); try reflexivity. apply perm_swap.
  - now transitivity (filter f l').
Qed.

(** ** Grouping *)

Section GroupingFacts.
Context {K V : Type} `{KeyOrderLaws K}.
Variable add : V -> V -> V.

Lemma groupby_sum_nil {R} (key : R -> K) (col : R -> V) :
  groupby_sum add key col [] = [].
Proof. reflexivity. Qed.

Lemma groupby_sum_snoc {R} (key : R -> K) (col : R -> V) df r :
  groupby_sum add key col (df ++ [r])
  = add_to_group add (key r) (col r) (groupby_sum add key col df).
Proof. unfold groupby_sum. now rewrite fold_left_app. Qed.

Lemma index_add_to_group (k k' : K) v (s : Series K V) :
  In k' (index (add_to_group add k v s)) <-> k' = k \/ In k' (index s).
Proof.
  induction s as [|[k1 v1] s IH]; simpl.
  - intuition.
  - destruct (kcompare k k1) eqn:E; simpl.
    + apply kcompare_eq in E. subst. intuition.
    + intuition.
    + rewrite IH. intuition.
Qed.

Lemma add_to_group_ascending (k : K) v (s : Series K V) :
  ascending_index s -> ascending_index (add_to_group add k v s).
Proof.
  unfold ascending_index.
  induction s as [|[k1 v1] s IH]; simpl; intros Hs.
  - repeat constructor.
  - apply StronglySorted_inv in Hs. destruct Hs as [Hs Hk1].
    destruct (kcompare k k1) eqn:E; simpl.
    + now constructor.
    + constructor; [now constructor|].
      constructor; [exact E|].
      eapply Forall_impl; [|exact Hk1].
      intros a Ha. eapply kcompare_trans; eassumption.
    + constructor; [now apply IH|].
      apply Forall_forall. intros k' Hin.
      apply index_add_to_group in Hin. destruct Hin as [->|Hin].
      * now apply kcompare_gt_lt.
      * rewrite Forall_forall in Hk1. now apply Hk1.
Qed.

Lemma groupby_sum_ascending {R} (key : R -> K) (col : R -> V) df :
  ascending_index (groupby_sum add key col df).
Proof.
  induction df as [|r df IH] using rev_ind.
  - constructor.
  - rewrite groupby_sum_snoc. now apply add_to_group_ascending.
Qed.

Lemma groupby_sum_index {R} (key : R -> K) (col : R -> V) df k :
  In k (index (groupby_sum add key col df)) <-> In k (map key df).
Proof.
  induction df as [|r df IH] using rev_ind.
  - reflexivity.
  - rewrite groupby_sum_snoc, index_add_to_group, IH, map_app, in_app_iff.
    simpl. intuition.
Qed.

Lemma lookup_not_in (k : K) (s : Series K V) :
  ~ In k (index s) -> lookup k s = None.
Proof.
  unfold lookup. induction s as [|[k1 v1] s IH]; simpl; intros Hn.
  - reflexivity.
  - destruct (keqb k k1) eqn:E.
    + apply keqb_eq in E. subst. tauto.
    + apply IH. tauto.
Qed.

Lemma lookup_in (k : K) (s : Series K V) :
  In k (index s) -> exists v, lookup k s = Some v.
Proof.
  unfold lookup. induction s as [|[k1 v1] s IH]; simpl; intros Hin.
  - contradiction.
  - destruct (keqb k k1) eqn:E; simpl; [eauto|].
    apply keqb_neq in E. destruct Hin as [->|Hin]; [congruence|]. auto.
Qed.

Lemma ascending_index_NoDup (s : Series K V) :
  ascending_index s -> NoDup (index s).
Proof.
  unfold ascending_index. induction 1 as [|k l Hs IH Hf]; constructor.
  - intros Hin. rewrite Forall_forall in Hf.
    exact (klt_irrefl _ (Hf _ Hin)).
  - exact IH.
Qed.

Lemma lookup_In (k : K) v (s : Series K V) :
  NoDup (index s) -> (In (k, v) s <-> lookup k s = Some v).
Proof.
  unfold lookup. induction s as [|[k1 v1] s IH]; simpl; intros Hnd.
  - split; [contradiction|discriminate].
  - inversion Hnd as [|? ? Hn Hnd']; subst.
    destruct (keqb k k1) eqn:E; simpl.
    + apply keqb_eq in E. subst. split.
      * intros [[= ->]|Hin]; [reflexivity|].
        exfalso. apply Hn. change k1 with (fst (k1, v)). now apply in_map.
      * intros [= ->]. now left.
    + apply keqb_neq in E. rewrite <- (IH Hnd'). split.
      * intros [[= -> ->]|Hin]; [congruence|assumption].
      * auto.
Qed.

Lemma lookup_cons (k k1 : K) (v1 : V) (s : Series K V) :
  lookup k ((k1, v1) :: s) = if keqb k k1 then Some v1 else lookup k s.
Proof. unfold lookup. simpl. now destruct (keqb k k1). Qed.

Lemma lookup_add_to_group (k k' : K) v (s : Series K V) :
  ascending_index s ->
  lookup k' (add_to_group add k v s)
  = if keqb k' k
    then Some match lookup k' s with Some v0 => add v0 v | None => v end
    else lookup k' s.
Proof.
  unfold ascending_index.
  induction s as [|[k1 v1] s IH]; simpl; intros Hs.
  - rewrite lookup_cons. reflexivity.
  - apply StronglySorted_inv in Hs. destruct Hs as [Hs Hk1].
    destruct (kcompare k k1) eqn:E.
    + apply kcompare_eq in E. subst k1.
      rewrite !lookup_cons. now destruct (keqb k' k).
    + rewrite (lookup_cons k' k). destruct (keqb k' k) eqn:E'; [|reflexivity].
      apply keqb_eq in E'. subst k'.
      rewrite lookup_not_in; [reflexivity|].
      simpl. intros [->|Hin].
      * now rewrite kcompare_refl in E.
      * rewrite Forall_forall in Hk1. specialize (Hk1 _ Hin).
        unfold klt in Hk1.
        pose proof (kcompare_trans _ _ _ E Hk1) as Hc.
        now rewrite kcompare_refl in Hc.
    + rewrite !lookup_cons. destruct (keqb k' k1) eqn:E1.
      * apply keqb_eq in E1. subst k'.
        destruct (keqb k1 k) eqn:E2; [|reflexivity].
        apply keqb_eq in E2. subst k1. now rewrite kcompare_refl in E.
      * apply (IH Hs).
Qed.

(** The value [groupby(..).sum()] holds at a label: the values of the
    rows of that group, added up in row order; labels without rows are
    absent. *)
Lemma groupby_sum_lookup_fold {R} (key : R -> K) (col : R -> V) (df : list R)
      (k : K) :
  lookup k (groupby_sum add key col df)
  = match map col (group_rows key k df) with
    | [] => None
    | v :: vs => Some (fold_left add vs v)
    end.
Proof.
  induction df as [|r df IH] using rev_ind.
  - reflexivity.
  - rewrite groupby_sum_snoc, lookup_add_to_group
      by apply groupby_sum_ascending.
    rewrite IH. unfold group_rows. rewrite filter_app. simpl.
    rewrite (keqb_sym k (key r)).
    destruct (keqb (key r) k); rewrite map_app; simpl.
    + destruct (map col (filter (fun r0 => keqb (key r0) k) df)) as [|v vs];
        simpl; [reflexivity|].
      now rewrite fold_left_app.
    + now rewrite app_nil_r.
Qed.
End GroupingFacts.

Section AscendingSeries.
Context {K V : Type} `{KeyOrderLaws K}.

Lemma lookup_head (k : K) (v : V) (s : Series K V) :
  lookup k ((k, v) :: s) = Some v.
Proof. now rewrite lookup_cons, keqb_refl. Qed.

Lemma lookup_absent (k : K) (s : Series K V) :
  ~ In k (index s) -> lookup k s = None.
Proof. apply (lookup_not_in (fun a _ => a)). Qed.

Lemma ascending_index_tail (p : K * V) (s : Series K V) :
  ascending_index (p :: s) -> ascending_index s.
Proof. unfold ascending_index. simpl. intros Hs. now inversion Hs. Qed.

Lemma ascending_index_head (k : K) (v : V) (s : Series K V) :
  ascending_index ((k, v) :: s) -> forall k', In k' (index s) -> klt k k'.
Proof.
  unfold ascending_index. simpl. intros Hs.
  apply StronglySorted_inv in Hs. destruct Hs as [_ Hk].
  now rewrite Forall_forall in Hk.
Qed.

Lemma lookup_below_head (k k0 : K) (v0 : V) (s : Series K V) :
  ascending_index ((k0, v0) :: s) -> klt k k0 ->
  lookup k ((k0, v0) :: s) = None.
Proof.
  intros Hs Hlt. apply lookup_absent. intros Hor.
  unfold index in Hor. simpl in Hor. destruct Hor as [->|Hin].
  - exact (klt_irrefl _ Hlt).
  - pose proof (ascending_index_head _ _ _ Hs _ Hin) as Hk.
    unfold klt in *.
    pose proof (kcompare_trans _ _ _ Hlt Hk) as Hc.
    now rewrite kcompare_refl in Hc.
Qed.

(** Two series with ascending labels that hold the same value at every
    label are the same series. *)
Lemma ascending_series_ext (s1 s2 : Series K V) :
  ascending_index s1 -> ascending_index s2 ->
  (forall k, lookup k s1 = lookup k s2) -> s1 = s2.
Proof.
  revert s2. induction s1 as [|[k1 v1] s1 IH]; intros [|[k2 v2] s2] H1 H2 Hl.
  - reflexivity.
  - specialize (Hl k2). rewrite lookup_head in Hl. discriminate.
  - specialize (Hl k1). rewrite lookup_head in Hl. discriminate.
  - destruct (kcompare k1 k2) eqn:E.
    + apply kcompare_eq in E. subst k2.
      pose proof (Hl k1) as Hv. rewrite !lookup_head in Hv.
      injection Hv as <-. f_equal.
      apply IH; [now apply ascending_index_tail in H1
                |now apply ascending_index_tail in H2|].
      intros k. specialize (Hl k). rewrite !lookup_cons in Hl.
      destruct (keqb k k1) eqn:Ek; [|exact Hl].
      apply keqb_eq in Ek. subst k.
      rewrite !lookup_absent; [reflexivity| |].
      * intros Hin. exact (klt_irrefl _ (ascending_index_head _ _ _ H2 _ Hin)).
      * intros Hin. exact (klt_irrefl _ (ascending_index_head _ _ _ H1 _ Hin)).
    + specialize (Hl k1).
      rewrite lookup_head, (lookup_below_head _ _ _ _ H2 E) in Hl.
      discriminate.
    + apply kcompare_gt_lt in E. specialize (Hl k2).
      rewrite lookup_head, (lookup_below_head _ _ _ _ H1 E) in Hl.
      discriminate.
Qed.
End AscendingSeries.

Section GroupTotals.
Context {K R : Type} `{KeyOrderLaws K}.
Variables (key : R -> K).

Lemma group_rows_snoc (k : K) (df : list R) (r : R) :
  group_rows key k (df ++ [r])
  = group_rows key k df ++ (if keqb (key r) k then [r] else []).
Proof. unfold group_rows. rewrite filter_app. reflexivity. Qed.

Lemma group_rows_nil_iff (k : K) (df : list R) :
  group_rows key k df = [] <-> ~ In k (map key df).
Proof.
  unfold group_rows. induction df as [|r df IH]; simpl.
  - tauto.
  - destruct (keqb (key r) k) eqn:E.
    + apply keqb_eq in E. split; [discriminate|tauto].
    + apply keqb_neq in E. rewrite IH. tauto.
Qed.

(** The total [groupby(..).sum()] holds at a label is the sum of the
    column over the rows of that group; labels without rows are absent. *)
Lemma groupby_sum_lookup (col : R -> Z) (df : list R) (k : K) :
  lookup k (groupby_sum Z.add key col df)
  = match group_rows key k df with
    | [] => None
    | g => Some (Zsum (map col g))
    end.
Proof.
  induction df as [|r df IH] using rev_ind.
  - reflexivity.
  - rewrite groupby_sum_snoc, lookup_add_to_group
      by apply groupby_sum_ascending.
    rewrite IH, group_rows_snoc, (keqb_sym k (key r)).
    destruct (keqb (key r) k).
    + destruct (group_rows key k df) as [|r0 g]; simpl.
      * now rewrite Zsum_cons, Zsum_nil, Z.add_0_r.
      * f_equal. rewrite map_app, !Zsum_cons, Zsum_app. simpl.
        rewrite Zsum_cons, Zsum_nil. lia.
    + now rewrite app_nil_r.
Qed.

Lemma group_rows_In (k : K) (df : list R) (r : R) :
  In r (group_rows key k df) <-> In r df /\ key r = k.
Proof. unfold group_rows. now rewrite filter_In, keqb_eq. Qed.

(** Adding a row to the group table adds its value to the grand total. *)
Lemma Zsum_add_to_group (k : K) (v : Z) (s : Series K Z) :
  Zsum (values (add_to_group Z.add k v s)) = Zsum (values s) + v.
Proof.
  unfold values in *.
  induction s as [|[k1 v1] s IH]; simpl.
  - unfold Zsum. simpl. lia.
  - destruct (kcompare k k1); simpl; rewrite ?Zsum_cons; lia.
Qed.

Lemma groupby_sum_conserves (col : R -> Z) (df : list R) :
  Zsum (values (groupby_sum Z.add key col df)) = Zsum (map col df).
Proof.
  induction df as [|r df IH] using rev_ind.
  - reflexivity.
  - rewrite groupby_sum_snoc, Zsum_add_to_group, IH, map_app, Zsum_app.
    simpl. rewrite Zsum_cons, Zsum_nil. lia.
Qed.

(** *** Totals in 64 bits *)

Lemma groupby_int64_lookup (col : R -> Z) (df : list R) (k : K) :
  lookup k (groupby_sum int64_add key col df)
  = match group_rows key k df with
    | [] => None
    | g => Some (int64_sum (map col g))
    end.
Proof.
  rewrite groupby_sum_lookup_fold.
  destruct (group_rows key k df); reflexivity.
Qed.

Lemma groupby_int64_In (col : R -> Z) (df : list R) (k : K) (v : Z) :
  In (k, v) (groupby_sum int64_add key col df)
  <-> In k (map key df) /\ v = int64_sum (map col (group_rows key k df)).
Proof.
  rewrite lookup_In
    by apply ascending_index_NoDup, (groupby_sum_ascending int64_add).
  rewrite groupby_int64_lookup.
  pose proof (group_rows_nil_iff k df) as Hnil.
  pose proof (group_rows_In k df) as Hin.
  destruct (group_rows key k df) as [|r0 g].
  - split; [discriminate|]. intros [Hk _]. exfalso.
    now apply (proj1 Hnil).
  - assert (Hk : In k (map key df)).
    { destruct (proj1 (Hin r0) (or_introl eq_refl)) as [Hr <-].
      now apply in_map. }
    split.
    + intros [= <-]. now split.
    + intros [_ ->]. reflexivity.
Qed.

(** A group total that fits into 64 bits is the exact sum of the group. *)
Lemma groupby_int64_In_exact (col : R -> Z) (df : list R) (k : K) (v : Z) :
  In (k, v) (groupby_sum int64_add key col df) ->
  in_int64 (Zsum (map col (group_rows key k df))) ->
  v = Zsum (map col (group_rows key k df)).
Proof.
  intros Hin Hfit. apply groupby_int64_In in Hin. destruct Hin as [_ ->].
  now apply int64_sum_exact.
Qed.

Lemma groupby_int64_perm (col : R -> Z) (df df' : list R) :
  Permutation df df' ->
  groupby_sum int64_add key col df = groupby_sum int64_add key col df'.
Proof.
  intros Hp.
  apply ascending_series_ext; try apply (groupby_sum_ascending int64_add).
  intros k. rewrite !groupby_int64_lookup.
  assert (Hg : Permutation (group_rows key k df) (group_rows key k df'))
    by now apply Permutation_filter.
  assert (Hs : int64_sum (map col (group_rows key k df))
               = int64_sum (map col (group_rows key k df')))
    by now apply int64_sum_perm, Permutation_map.
  destruct (group_rows key k df) as [|r g] eqn:E1,
           (group_rows key k df') as [|r' g'] eqn:E2.
  - reflexivity.
  - apply Permutation_nil in Hg. discriminate.
  - symmetry in Hg. apply Permutation_nil in Hg. discriminate.
  - now rewrite Hs.
Qed.

(** When the absolute values of the column add up to less than [2^63], no
    group total wraps around. *)
Lemma groupby_int64_exact (col : R -> Z) (df : list R) :
  Zsum (map Z.abs (map col df)) < 2 ^ 63 ->
  groupby_sum int64_add key col df = groupby_sum Z.add key col df.
Proof.
  intros Hb.
  apply ascending_series_ext; try apply groupby_sum_ascending.
  intros k. rewrite groupby_int64_lookup, groupby_sum_lookup.
  pose proof (Zsum_filter_bound col (fun r => keqb (key r) k) df) as Hle.
  fold (group_rows key k df) in Hle.
  destruct (group_rows key k df) as [|r g]; [reflexivity|].
  f_equal. apply int64_sum_exact. unfold in_int64. lia.
Qed.

Lemma wrap_sum_add_to_group (k : K) (v : Z) (s : Series K Z) :
  int64_wrap (Zsum (values (add_to_group int64_add k v s)))
  = int64_wrap (Zsum (values s) + v).
Proof.
  unfold values.
  induction s as [|[k1 v1] s IH]; simpl.
  - now rewrite Zsum_cons, Zsum_nil, Z.add_0_r.
  - destruct (kcompare k k1); simpl; rewrite ?Zsum_cons.
    + unfold int64_add. rewrite int64_wrap_add_l. f_equal. lia.
    + f_equal. lia.
    + rewrite <- int64_wrap_add_r, IH, int64_wrap_add_r. f_equal. lia.
Qed.

Lemma groupby_int64_wrap_conserves (col : R -> Z) (df : list R) :
  int64_wrap (Zsum (values (groupby_sum int64_add key col df)))
  = int64_wrap (Zsum (map col df)).
Proof.
  induction df as [|r df IH] using rev_ind.
  - reflexivity.
  - rewrite groupby_sum_snoc, wrap_sum_add_to_group, map_app, Zsum_app.
    simpl. rewrite Zsum_cons, Zsum_nil, Z.add_0_r.
    now apply int64_wrap_add_cong.
Qed.

(** The group totals add up, in 64 bits, to the sum of the column in 64
    bits. *)
Lemma groupby_int64_conserves (col : R -> Z) (df : list R) :
  int64_sum (values (groupby_sum int64_add key col df))
  = int64_sum (map col df).
Proof.
  pose proof (groupby_int64_wrap_conserves col df) as Hw.
  pose proof (groupby_sum_index int64_add key col df) as Hidx.
  pose proof (ascending_index_NoDup
                _ (groupby_sum_ascending int64_add key col df)) as Hnd.
  pose proof (fun k v => groupby_int64_In col df k v) as Hin.
  destruct (groupby_sum int64_add key col df) as [|[k g] [|q s]] eqn:E.
  - destruct df as [|r df]; [reflexivity|].
    exfalso. apply (proj2 (Hidx (key r))). now left.
  - assert (Hall : group_rows key k df = df).
    { apply filter_all. intros r Hr. apply keqb_eq.
      assert (Hk : In (key r) (index [(k, g)]))
        by (apply Hidx; now apply in_map).
      destruct Hk as [Hk|[]]. now symmetry. }
    destruct (proj1 (Hin k g) (or_introl eq_refl)) as [_ ->].
    now rewrite Hall.
  - assert (Hlen : (2 <= length df)%nat).
    { rewrite <- (length_map key df).
      etransitivity; [|apply (NoDup_incl_length Hnd)].
      - simpl. lia.
      - intros x Hx. now apply Hidx. }
    destruct df as [|a [|b df]]; simpl in Hlen; try lia.
    cbn [values map] in *. cbn [map]. rewrite !int64_sum_wraps. exact Hw.
Qed.
End GroupTotals.

(** ** Sorting by value *)

Lemma StronglySorted_app {A} (R : A -> A -> Prop) (l1 l2 : list A) :
  StronglySorted R l1 -> StronglySorted R l2 ->
  (forall x y, In x l1 -> In y l2 -> R x y) ->
  StronglySorted R (l1 ++ l2).
Proof.
  induction l1 as [|a l1 IH]; simpl; intros H1 H2 H12; [exact H2|].
  apply StronglySorted_inv in H1. destruct H1 as [H1 Ha].
  constructor.
  - apply IH; auto.
  - apply Forall_app. split; [exact Ha|].
    apply Forall_forall. intros y Hy. apply H12; auto.
Qed.

Lemma StronglySorted_rev {A} (R : A -> A -> Prop) (l : list A) :
  StronglySorted R l -> StronglySorted (fun a b => R b a) (rev l).
Proof.
  induction 1 as [|a l Hs IH Ha]; simpl; [constructor|].
  apply StronglySorted_app; [exact IH|repeat constructor|].
  intros x y Hx [<-|[]]. apply in_rev in Hx.
  rewrite Forall_forall in Ha. now apply Ha.
Qed.

Section SortingFacts.
Context {K V : Type}.
Variable ltb : V -> V -> bool.
Hypothesis ltb_asym : forall a b, ltb a b = true -> ltb b a = false.
Hypothesis ltb_negtrans :
  forall a b c, ltb b a = false -> ltb c b = false -> ltb c a = false.

#[local] Abbreviation asc := (may_precede ltb).

Lemma insert_row_perm (p : K * V) (s : Series K V) :
  Permutation (insert_row ltb p s) (p :: s).
Proof.
  induction s as [|q s IH]; simpl; [reflexivity|].
  destruct (ltb (snd p) (snd q)); [reflexivity|].
  rewrite IH. apply perm_swap.
Qed.

Lemma insert_row_sorted (p : K * V) (s : Series K V) :
  StronglySorted asc s -> StronglySorted asc (insert_row ltb p s).
Proof.
  induction s as [|q s IH]; simpl; intros Hs.
  - repeat constructor.
  - destruct (ltb (snd p) (snd q)) eqn:E.
    + constructor; [exact Hs|].
      apply StronglySorted_inv in Hs. destruct Hs as [_ Hq].
      constructor; [now apply ltb_asym|].
      eapply Forall_impl; [|exact Hq].
      intros a Ha. unfold asc in *.
      eapply ltb_negtrans; [|exact Ha]. now apply ltb_asym.
    + apply StronglySorted_inv in Hs. destruct Hs as [Hs Hq].
      constructor; [now apply IH|].
      apply Forall_forall. intros a Ha.
      apply (Permutation_in _ (insert_row_perm p s)) in Ha.
      destruct Ha as [<-|Ha]; [exact E|].
      rewrite Forall_forall in Hq. now apply Hq.
Qed.

Lemma fold_insert_perm (s acc : Series K V) :
  Permutation (fold_left (fun a p => insert_row ltb p a) s acc) (s ++ acc).
Proof.
  revert acc. induction s as [|p s IH]; intros acc; simpl; [reflexivity|].
  rewrite IH, insert_row_perm. symmetry. apply Permutation_middle.
Qed.

Lemma fold_insert_sorted (s acc : Series K V) :
  StronglySorted asc acc ->
  StronglySorted asc (fold_left (fun a p => insert_row ltb p a) s acc).
Proof.
  revert acc. induction s as [|p s IH]; intros acc Hacc; simpl; [exact Hacc|].
  apply IH. now apply insert_row_sorted.
Qed.

Lemma sort_values_desc_perm (s : Series K V) :
  Permutation (sort_values_desc ltb s) s.
Proof.
  unfold sort_values_desc, argsort.
  rewrite <- Permutation_rev, fold_insert_perm, app_nil_r.
  symmetry. apply Permutation_rev.
Qed.

Lemma sort_values_desc_sorted (s : Series K V) :
  StronglySorted (fun p q => ltb (snd p) (snd q) = false)
                 (sort_values_desc ltb s).
Proof.
  unfold sort_values_desc, argsort.
  apply (StronglySorted_rev asc). apply fold_insert_sorted. constructor.
Qed.
End SortingFacts.

Lemma sort_values_desc_descending {K} (s : Series K Z) :
  descending (sort_values_desc Z.ltb s).
Proof.
  unfold descending.
  eapply StronglySorted_ind with
    (P := fun l => StronglySorted (fun p q : K * Z => snd q <= snd p) l);
    [constructor| |apply (sort_values_desc_sorted Z.ltb)].
  - intros a l _ IH Ha. constructor; [exact IH|].
    eapply Forall_impl; [|exact Ha]. simpl. intros q Hq.
    apply Z.ltb_ge in Hq. exact Hq.
  - intros a b Hab. apply Z.ltb_lt in Hab. apply Z.ltb_ge. lia.
  - intros a b c Hba Hcb. apply Z.ltb_ge in Hba, Hcb. apply Z.ltb_ge. lia.
Qed.

Lemma Qltb_lt (a b : Q) : Qltb a b = true <-> (a < b)%Q.
Proof.
  unfold Qltb. rewrite negb_true_iff, <- not_true_iff_false, Qle_bool_iff.
  split; [apply Qnot_le_lt|apply Qlt_not_le].
Qed.

(** ** Counting labels *)

Section CountingFacts.
Context {K : Type} `{KeyOrderLaws K}.

Lemma count_table_snoc (l : list K) (k : K) :
  count_table (l ++ [k]) = count_label k (count_table l).
Proof. unfold count_table. now rewrite fold_left_app. Qed.

Lemma lookup_count_label (k k' : K) (s : Series K Z) :
  lookup k' (count_label k s)
  = if keqb k' k
    then Some match lookup k' s with Some c => c + 1 | None => 1 end
    else lookup k' s.
Proof.
  induction s as [|[k1 c1] s IH]; simpl.
  - rewrite lookup_cons. reflexivity.
  - destruct (keqb k k1) eqn:E.
    + apply keqb_eq in E. subst k1.
      rewrite !lookup_cons. now destruct (keqb k' k).
    + rewrite !lookup_cons, IH.
      destruct (keqb k' k1) eqn:E1; [|reflexivity].
      apply keqb_eq in E1. subst k1.
      rewrite keqb_sym in E. now rewrite E.
Qed.

Lemma index_count_label (k k' : K) (s : Series K Z) :
  In k' (index (count_label k s)) <-> k' = k \/ In k' (index s).
Proof.
  induction s as [|[k1 c1] s IH]; simpl.
  - intuition.
  - destruct (keqb k k1) eqn:E; simpl.
    + apply keqb_eq in E. subst. intuition.
    + rewrite IH. intuition.
Qed.

Lemma count_label_NoDup (k : K) (s : Series K Z) :
  NoDup (index s) -> NoDup (index (count_label k s)).
Proof.
  induction s as [|[k1 c1] s IH]; simpl; intros Hnd.
  - repeat constructor. intros [].
  - inversion Hnd as [|? ? Hn Hnd']; subst.
    destruct (keqb k k1) eqn:E; simpl.
    + now constructor.
    + constructor; [|now apply IH].
      rewrite index_count_label. intros [->|Hin]; [|contradiction].
      now rewrite keqb_refl in E.
Qed.

Lemma count_table_NoDup (l : list K) : NoDup (index (count_table l)).
Proof.
  induction l as [|k l IH] using rev_ind.
  - constructor.
  - rewrite count_table_snoc. now apply count_label_NoDup.
Qed.

Lemma occurrences_snoc (k k' : K) (l : list K) :
  occurrences k (l ++ [k'])
  = occurrences k l + (if keqb k k' then 1 else 0).
Proof.
  unfold occurrences, count. rewrite filter_app, length_app. simpl.
  destruct (keqb k k'); simpl; lia.
Qed.

Lemma occurrences_app (k : K) (l1 l2 : list K) :
  occurrences k (l1 ++ l2) = occurrences k l1 + occurrences k l2.
Proof. unfold occurrences, count. rewrite filter_app, length_app. lia. Qed.

Lemma occurrences_nonneg (k : K) (l : list K) : 0 <= occurrences k l.
Proof. unfold occurrences, count. lia. Qed.

Lemma occurrences_pos (k : K) (l : list K) :
  0 < occurrences k l <-> In k l.
Proof.
  unfold occurrences, count. induction l as [|a l IH]; simpl.
  - split; [lia|tauto].
  - destruct (keqb k a) eqn:E.
    + apply keqb_eq in E. subst. simpl. split; [auto|lia].
    + apply keqb_neq in E. rewrite IH. split; [auto|].
      intros [->|Hin]; [congruence|assumption].
Qed.

Lemma lookup_count_table (k : K) (l : list K) :
  lookup k (count_table l)
  = if occurrences k l =? 0 then None else Some (occurrences k l).
Proof.
  induction l as [|k' l IH] using rev_ind.
  - reflexivity.
  - rewrite count_table_snoc, lookup_count_label, IH, occurrences_snoc.
    pose proof (occurrences_nonneg k l) as Hge.
    destruct (keqb k k').
    + destruct (Z.eqb_spec (occurrences k l) 0) as [->|Hne].
      * reflexivity.
      * destruct (Z.eqb_spec (occurrences k l + 1) 0); [lia|reflexivity].
    + now rewrite Z.add_0_r.
Qed.

(** [value_counts] lists every label of the column once, with the number
    of its occurrences. *)
Lemma value_counts_In (k : K) (c : Z) (l : list K) :
  In (k, c) (value_counts l) <-> In k l /\ c = occurrences k l.
Proof.
  unfold value_counts.
  assert (Hp : Permutation (sort_values_desc Z.ltb (count_table l))
                           (count_table l))
    by apply sort_values_desc_perm.
  split.
  - intros Hin. apply (Permutation_in _ Hp) in Hin.
    apply lookup_In in Hin; [|apply count_table_NoDup].
    rewrite lookup_count_table in Hin.
    destruct (Z.eqb_spec (occurrences k l) 0) as [|Hne]; [discriminate|].
    injection Hin as <-. split; [|reflexivity].
    apply occurrences_pos. pose proof (occurrences_nonneg k l). lia.
  - intros [Hin ->]. apply (Permutation_in _ (Permutation_sym Hp)).
    apply lookup_In; [apply count_table_NoDup|].
    rewrite lookup_count_table.
    apply occurrences_pos in Hin.
    destruct (Z.eqb_spec (occurrences k l) 0); [lia|reflexivity].
Qed.

Lemma value_counts_NoDup (l : list K) : NoDup (index (value_counts l)).
Proof.
  unfold value_counts.
  eapply Permutation_NoDup; [|apply count_table_NoDup].
  unfold index. apply Permutation_map. symmetry.
  apply sort_values_desc_perm.
Qed.

Lemma value_counts_descending (l : list K) : descending (value_counts l).
Proof. apply sort_values_desc_descending. Qed.
End CountingFacts.

(** ** [head] *)

Lemma head_nonneg {A} (n : Z) (s : list A) :
  0 <= n -> head n s = firstn (Z.to_nat n) s.
Proof. unfold head. intros Hn. now rewrite (proj2 (Z.leb_le 0 n) Hn). Qed.

Lemma head_neg {A} (n : Z) (s : list A) :
  n < 0 -> head n s = firstn (length s - Z.to_nat (- n)) s.
Proof. unfold head. intros Hn. now rewrite (proj2 (Z.leb_gt 0 n) Hn). Qed.

Lemma head_all {A} (n : Z) (s : list A) : count s <= n -> head n s = s.
Proof.
  unfold count. intros Hn. rewrite head_nonneg by lia.
  apply firstn_all2. lia.
Qed.

Lemma head_nil {A} (n : Z) : head n (@nil A) = [].
Proof. unfold head. destruct (0 <=? n); apply firstn_nil. Qed.

Lemma head_zero {A} (s : list A) : head 0 s = [].
Proof. reflexivity. Qed.

Lemma head_prefix {A} (n : Z) (s : list A) : exists rest, s = head n s ++ rest.
Proof.
  unfold head. destruct (0 <=? n); eexists; symmetry; apply firstn_skipn.
Qed.

(** ** From rationals to reals *)

Lemma Q2R_inject_Z (z : Z) : Q2R (inject_Z z) = IZR z.
Proof. unfold Q2R. simpl. lra. Qed.

Lemma Q2R_Qabs (q : Q) : Q2R (Qabs q) = Rabs (Q2R q).
Proof.
  destruct q as [n d]. unfold Q2R. simpl.
  rewrite abs_IZR, Rabs_mult. f_equal.
  symmetry. apply Rabs_pos_eq. left. apply Rinv_0_lt_compat.
  apply IZR_lt. reflexivity.
Qed.

Lemma Q2R_fold_Qplus (l : list Q) (a : Q) :
  Q2R (fold_left Qplus l a) = (Q2R a + Rsum (map Q2R l))%R.
Proof.
  revert a. induction l as [|x l IH]; intros a; simpl; [lra|].
  rewrite IH, Q2R_plus. lra.
Qed.

Lemma Q2R_Qsum (l : list Q) : Q2R (Qsum l) = Rsum (map Q2R l).
Proof. unfold Qsum. rewrite Q2R_fold_Qplus, RMicromega.Q2R_0. lra. Qed.

Lemma IZR_Zsum (l : list Z) : IZR (Zsum l) = Rsum (map IZR l).
Proof.
  induction l as [|x l IH]; [reflexivity|].
  rewrite Zsum_cons, plus_IZR, IH. reflexivity.
Qed.

Lemma Rsum_nonneg (l : list R) :
  Forall (fun x => 0 <= x)%R l -> (0 <= Rsum l)%R.
Proof. induction 1; simpl; lra. Qed.

Lemma Rsum_zero (l : list R) :
  Forall (fun x => x = 0)%R l -> Rsum l = 0%R.
Proof. induction 1; simpl; lra. Qed.

Lemma Rsum_ext {A} (f g : A -> R) (l : list A) :
  (forall x, In x l -> f x = g x) -> Rsum (map f l) = Rsum (map g l).
Proof.
  induction l as [|a l IH]; simpl; intros Hfg; [reflexivity|].
  rewrite Hfg, IH; auto.
Qed.

(** ** [mean], [var] and [std] compute the spec's statistics *)

Lemma count_pos_cons {A} (x : A) (l : list A) : 0 < count (x :: l).
Proof. unfold count. simpl. lia. Qed.

Lemma INR_count {A} (l : list A) : IZR (count l) = INR (length l).
Proof. unfold count. symmetry. apply INR_IZR_INZ. Qed.

Lemma mean_Some (l : list Z) (m : Q) :
  mean l = Some m -> Q2R m = sample_mean l.
Proof.
  unfold mean, sample_mean. destruct l as [|x l]; [discriminate|].
  intros [= <-]. pose proof (count_pos_cons x l) as Hc.
  rewrite Q2R_div, !Q2R_inject_Z, IZR_Zsum, INR_count; [reflexivity|].
  intros E. apply Qeq_eqR in E.
  rewrite Q2R_inject_Z, RMicromega.Q2R_0 in E.
  apply eq_IZR in E. lia.
Qed.

Lemma mean_None (l : list Z) : mean l = None <-> l = [].
Proof. unfold mean. destruct l; split; congruence. Qed.

Lemma var_Some (l : list Z) (v : Q) :
  var l = Some v ->
  (2 <= length l)%nat /\
  Q2R v = (Rsum (map (fun x => (IZR x - sample_mean l) ^ 2) l)
           / (INR (length l) - 1))%R.
Proof.
  unfold var. destruct (mean l) as [m|] eqn:Em; [|discriminate].
  apply mean_Some in Em.
  destruct (Z.leb_spec (count l - 1) 0) as [|Hc]; [discriminate|].
  intros [= <-]. split; [unfold count in Hc; lia|].
  rewrite Q2R_div, Q2R_Qsum, Q2R_inject_Z, minus_IZR, INR_count, map_map.
  - f_equal. apply Rsum_ext. intros x _.
    change ((m - inject_Z x) ^ 2)%Q with ((m - inject_Z x) * (m - inject_Z x))%Q.
    rewrite !Q2R_mult, Q2R_minus, Q2R_inject_Z, Em. ring.
  - intros E. apply Qeq_eqR in E.
    rewrite Q2R_inject_Z, RMicromega.Q2R_0 in E.
    apply eq_IZR in E. lia.
Qed.

Lemma var_None (l : list Z) : var l = None <-> (length l <= 1)%nat.
Proof.
  unfold var. destruct (mean l) as [m|] eqn:Em.
  - destruct (Z.leb_spec (count l - 1) 0) as [Hc|Hc]; unfold count in Hc.
    + split; [lia|reflexivity].
    + split; [discriminate|lia].
  - apply mean_None in Em. subst. simpl. split; [lia|reflexivity].
Qed.

(** ** Comparing against a square root *)

Lemma Qle_bool_R (x y : Q) : reflect (Q2R x <= Q2R y)%R (Qle_bool x y).
Proof.
  apply iff_reflect. rewrite Qle_bool_iff. split; [apply Rle_Qle|apply Qle_Rle].
Qed.

Lemma Qltb_R (x y : Q) : reflect (Q2R x < Q2R y)%R (Qltb x y).
Proof.
  apply iff_reflect. rewrite Qltb_lt. split; [apply Rlt_Qlt|apply Qlt_Rlt].
Qed.

Lemma Rgt_scaled_sqrt (a c v : R) :
  (0 <= v)%R ->
  (a > c * sqrt v)%R <->
  ((0 <= c /\ 0 < a /\ c * c * v < a * a) \/
   (c < 0 /\ 0 <= a /\ (0 < a \/ 0 < v)) \/
   (c < 0 /\ a < 0 /\ a * a < c * c * v))%R.
Proof.
  intros Hv.
  pose proof (sqrt_pos v) as Hr.
  pose proof (sqrt_sqrt v Hv) as Hrr.
  assert (Hr0 : (sqrt v = 0 -> v = 0)%R) by (intros E; rewrite E in Hrr; lra).
  assert (Hv0 : (0 < v -> 0 < sqrt v)%R) by (apply sqrt_lt_R0).
  set (r := sqrt v) in *. clearbody r.
  split.
  - intros Hgt.
    destruct (Rle_lt_dec 0 c) as [Hc|Hc]; [left|right].
    + assert (0 <= c * r)%R by nra. split; [lra|]. split; [lra|]. nra.
    + destruct (Rle_lt_dec 0 a) as [Ha|Ha]; [left|right].
      * split; [lra|]. split; [lra|].
        destruct (Rle_lt_dec a 0); [right|left; lra].
        assert (a = 0)%R by lra. subst a.
        destruct (Rle_lt_dec v 0); [|lra].
        assert (v = 0)%R by lra. subst v.
        assert (r = 0)%R by nra. subst r. lra.
      * split; [lra|]. split; [lra|]. nra.
  - intros [(Hc & Ha & Hsq)|[(Hc & Ha & Hor)|(Hc & Ha & Hsq)]].
    + assert (0 <= c * r)%R by nra. nra.
    + destruct Hor as [Hpos|Hpos].
      * assert (c * r <= 0)%R by nra. lra.
      * specialize (Hv0 Hpos). assert (c * r < 0)%R by nra. lra.
    + assert (Hneg : (c * r < 0)%R) by nra.
      assert (Hs : ((- a) * (- a) < (- (c * r)) * (- (c * r)))%R) by nra.
      nra.
Qed.

Lemma Qgt_surd_spec (a : Q) (s : surd) :
  (0 <= radicand s)%Q ->
  Qgt_surd a s = true <-> (Q2R a > surd_R s)%R.
Proof.
  destruct s as [c v]. unfold Qgt_surd, surd_R. simpl. intros Hv.
  apply Qle_Rle in Hv. rewrite RMicromega.Q2R_0 in Hv.
  rewrite (Rgt_scaled_sqrt _ _ _ Hv).
  destruct (Qle_bool_R 0 c) as [Hc|Hc];
    [|destruct (Qle_bool_R 0 a) as [Ha|Ha]];
    rewrite ?andb_true_iff, ?orb_true_iff;
    rewrite <- ?(reflect_iff _ _ (Qltb_R _ _));
    rewrite ?Q2R_mult, ?RMicromega.Q2R_0 in *.
  - split; [intros [? ?]|intros [(_ & ? & ?)|[(? & _)|(? & _)]]];
      try lra; auto.
  - split; [intros ?|intros [(? & _)|[(_ & _ & ?)|(_ & ? & _)]]];
      try lra; auto.
  - split; [intros ?|intros [(? & _)|[(_ & ? & _)|(_ & _ & ?)]]];
      try lra; auto.
Qed.

(** ** The anomaly test *)

Lemma sample_std_nonneg (vs : list Z) : (0 <= sample_std vs)%R.
Proof. apply sqrt_pos. Qed.

Lemma squares_nonneg (m : R) (vs : list Z) :
  (0 <= Rsum (map (fun x => (IZR x - m) ^ 2) vs))%R.
Proof.
  apply Rsum_nonneg, Forall_forall. intros x Hx.
  apply in_map_iff in Hx. destruct Hx as (y & <- & _). apply pow2_ge_0.
Qed.

Lemma var_nonneg (vs : list Z) (v : Q) : var vs = Some v -> (0 <= v)%Q.
Proof.
  intros Hv. apply var_Some in Hv. destruct Hv as [Hlen Hv].
  apply Rle_Qle. rewrite RMicromega.Q2R_0, Hv.
  apply Rmult_le_pos; [apply squares_nonneg|].
  left. apply Rinv_0_lt_compat.
  assert (2 <= INR (length vs))%R by (apply (le_INR 2), Hlen). lra.
Qed.

Lemma std_R (vs : list Z) (v : Q) (z : Q) :
  var vs = Some v ->
  surd_R (mkSurd (z * 1) v) = (Q2R z * sample_std vs)%R.
Proof.
  intros Hv. apply var_Some in Hv. destruct Hv as [_ Hv].
  unfold surd_R, sample_std. cbn [coeff radicand]. rewrite Hv, Q2R_mult.
  change (Q2R 1) with (Q2R (inject_Z 1)). rewrite Q2R_inject_Z. ring.
Qed.

(** The mask [(daily_counts - mean).abs() > z_thresh * std], one row at a
    time, says what the spec's inequality says. *)
Lemma anomaly_mask_spec (z : Q) (vs : list Z) (t : Z) :
  In t vs ->
  gt (abs (sub t (mean vs))) (mul z (std vs)) = true
  <-> (Rabs (IZR t - sample_mean vs) > Q2R z * sample_std vs)%R.
Proof.
  intros Hin. unfold std.
  destruct (var vs) as [v|] eqn:Ev.
  - destruct (mean vs) as [m|] eqn:Em.
    + cbn [gt abs sub mul option_map coeff radicand].
      rewrite Qgt_surd_spec by (simpl; eapply var_nonneg; eassumption).
      rewrite (std_R vs v z Ev), Q2R_Qabs, Q2R_minus, Q2R_inject_Z.
      now rewrite (mean_Some _ _ Em).
    + unfold var in Ev. rewrite Em in Ev. discriminate.
  - apply var_None in Ev.
    destruct vs as [|x [|y vs]]; simpl in Ev; [contradiction| |lia].
    destruct Hin as [->|[]].
    assert (Hm : sample_mean [t] = IZR t).
    { unfold sample_mean. simpl. field. }
    assert (Hs : sample_std [t] = 0%R).
    { unfold sample_std. rewrite Hm. simpl.
      replace ((IZR t - IZR t) * ((IZR t - IZR t) * 1) + 0)%R with 0%R by ring.
      unfold Rdiv. rewrite Rmult_0_l. apply sqrt_0. }
    rewrite Hm, Hs, Rminus_diag, Rabs_R0, Rmult_0_r.
    destruct (mean [t]); simpl; split; try discriminate; lra.
Qed.

Lemma filter_submapping {A} (f : A -> bool) (l : list A) :
  submapping (filter f l) l.
Proof.
  induction l as [|x l IH]; simpl; [constructor|].
  destruct (f x); now constructor.
Qed.

Lemma submapping_refl {A} (l : list A) : submapping l l.
Proof. induction l; now constructor. Qed.

Lemma submapping_In {A} (a b : list A) (x : A) :
  submapping a b -> In x a -> In x b.
Proof. induction 1; simpl; intuition. Qed.

(** ** Anomaly detection *)

Import ServiceDisruptionDetection.

Lemma detect_anomalies_returns (df : DataFrame) (z : Q) :
  detect_anomalies df (Some z) = Returns (anomalous_days df z, daily_totals df).
Proof. reflexivity. Qed.

Lemma detect_anomalies_default (df : DataFrame) :
  detect_anomalies df None = detect_anomalies df (Some 2.5%Q).
Proof. reflexivity. Qed.

Lemma anomalous_days_In (df : DataFrame) (z : Q) (d : date) (t : Z) :
  In (d, t) (anomalous_days df z)
  <-> In (d, t) (daily_totals df) /\
      (Rabs (IZR t - sample_mean (values (daily_totals df)))
       > Q2R z * sample_std (values (daily_totals df)))%R.
Proof.
  unfold anomalous_days. rewrite filter_In. simpl.
  split; intros [Hin Hm]; (split; [exact Hin|]);
    apply anomaly_mask_spec in Hm; try exact Hm;
    unfold values; change t with (snd (d, t)); now apply in_map.
Qed.

Lemma no_In_nil {A} (l : list A) : (forall x, ~ In x l) -> l = [].
Proof.
  destruct l as [|a l]; [reflexivity|].
  intros Hn. exfalso. apply (Hn a). now left.
Qed.

Lemma Q2R_default_threshold : Q2R 2.5 = (5 / 2)%R.
Proof. unfold Q2R. simpl. lra. Qed.

(** When all values coincide the mean is that value and the standard
    deviation is zero. *)
Lemma constant_series_stats (vs : list Z) (t : Z) :
  In t vs -> (forall x, In x vs -> x = t) ->
  sample_mean vs = IZR t /\ sample_std vs = 0%R.
Proof.
  intros Hin Hall.
  assert (Hsum : Rsum (map IZR vs) = (INR (length vs) * IZR t)%R).
  { clear Hin. induction vs as [|x vs IH]; [simpl; lra|].
    cbn [map Rsum fold_right length]. fold (Rsum (map IZR vs)).
    rewrite IH by (intros y Hy; apply Hall; now right).
    rewrite (Hall x) by now left. rewrite S_INR. ring. }
  assert (Hlen : (0 < INR (length vs))%R).
  { apply lt_0_INR. destruct vs; [contradiction|simpl; lia]. }
  assert (Hm : sample_mean vs = IZR t).
  { unfold sample_mean. rewrite Hsum. field. lra. }
  split; [exact Hm|].
  unfold sample_std. rewrite Hm.
  rewrite Rsum_zero.
  - unfold Rdiv. rewrite Rmult_0_l. apply sqrt_0.
  - apply Forall_forall. intros y Hy. apply in_map_iff in Hy.
    destruct Hy as (x & <- & Hx). rewrite (Hall x Hx). ring.
Qed.

(** Two values: each lies [std / sqrt 2] from the mean. *)
Lemma two_values_deviation (a b : Z) :
  Rabs (IZR a - sample_mean [a; b]) = (sample_std [a; b] / sqrt 2)%R /\
  Rabs (IZR b - sample_mean [a; b]) = (sample_std [a; b] / sqrt 2)%R.
Proof.
  assert (Hm : sample_mean [a; b] = ((IZR a + IZR b) / 2)%R).
  { unfold sample_mean. simpl. field. }
  assert (H2 : (0 < sqrt 2)%R) by (apply sqrt_lt_R0; lra).
  assert (H22 : (sqrt 2 * sqrt 2 = 2)%R) by (apply sqrt_sqrt; lra).
  assert (Hv : (0 <= (IZR a - IZR b) * (IZR a - IZR b) / 2)%R).
  { pose proof (Rle_0_sqr (IZR a - IZR b)) as Hq. unfold Rsqr in Hq. lra. }
  assert (Hs : sample_std [a; b]
               = sqrt ((IZR a - IZR b) * (IZR a - IZR b) / 2)).
  { unfold sample_std. rewrite Hm. f_equal. simpl. field. }
  pose proof (sqrt_pos ((IZR a - IZR b) * (IZR a - IZR b) / 2)) as Hs0.
  pose proof (sqrt_sqrt _ Hv) as Hss.
  rewrite Hs, Hm.
  set (s := sqrt ((IZR a - IZR b) * (IZR a - IZR b) / 2)) in *.
  assert (Hq : (0 <= s / sqrt 2)%R).
  { apply Rmult_le_pos; [exact Hs0|]. left. now apply Rinv_0_lt_compat. }
  assert (Hqq : ((s / sqrt 2) * (s / sqrt 2)
                 = (IZR a - IZR b) * (IZR a - IZR b) / 4)%R).
  { replace ((s / sqrt 2) * (s / sqrt 2))%R
      with ((s * s) / (sqrt 2 * sqrt 2))%R by (field; lra).
    rewrite Hss, H22. field. }
  split; apply Rsqr_inj; try apply Rabs_pos; try exact Hq;
    rewrite <- Rsqr_abs; unfold Rsqr; rewrite Hqq; field.
Qed.

Lemma two_dates_daily_totals (df : DataFrame) (d1 d2 : date) :
  d1 <> d2 ->
  (forall d, In d (map timestamp_date df) <-> d = d1 \/ d = d2) ->
  exists k1 a k2 b, daily_totals df = [(k1, a); (k2, b)].
Proof.
  intros Hne Hdates.
  assert (Hp : Permutation (index (daily_totals df)) [d1; d2]).
  { apply NoDup_Permutation.
    - apply ascending_index_NoDup, (groupby_sum_ascending int64_add).
    - constructor; [simpl; intuition congruence|].
      constructor; [intros []|constructor].
    - intros d. unfold daily_totals. rewrite groupby_sum_index, Hdates.
      simpl. intuition congruence. }
  apply Permutation_length in Hp. unfold index in Hp.
  rewrite length_map in Hp. simpl in Hp.
  destruct (daily_totals df) as [|[k1 a] [|[k2 b] [|p l]]];
    try discriminate. now exists k1, a, k2, b.
Qed.

(** ** Anomaly detection in binary64 *)

Lemma detect_anomalies_float64_returns (isum fsum : list float -> float)
      (df : DataFrame) (z : float) :
  detect_anomalies_float64 isum fsum df (Some z)
  = Returns (anomalous_days_float64 isum fsum df z, daily_totals df).
Proof. reflexivity. Qed.

Lemma detect_anomalies_float64_default (isum fsum : list float -> float)
      (df : DataFrame) :
  detect_anomalies_float64 isum fsum df None
  = detect_anomalies_float64 isum fsum df (Some 2.5%float).
Proof. reflexivity. Qed.

(** Nothing exceeds a multiple of NaN. *)
Lemma ltb_mul_nan (z a : float) : (z * nan <? a)%float = false.
Proof.
  rewrite ltb_spec, mul_spec.
  replace (Prim2SF nan) with S754_nan by reflexivity.
  unfold SF64mul, SFmul. destruct (Prim2SF z); reflexivity.
Qed.

(** A float less itself is zero, or NaN when the float is infinite or
    NaN. *)
Lemma sub_diag_cases (x : float) :
  Prim2SF (x - x)%float = S754_zero false \/ Prim2SF (x - x)%float = S754_nan.
Proof.
  rewrite sub_spec. unfold SF64sub, SFsub.
  destruct (Prim2SF x) as [s|s| |s m e].
  - left. destruct s; reflexivity.
  - right. destruct s; reflexivity.
  - right. reflexivity.
  - left. rewrite Z.sub_diag. reflexivity.
Qed.

(** No multiple of zero lies below the distance of a float from itself. *)
Lemma ltb_mul_zero_diag (z x : float) :
  (z * 0 <? PrimFloat.abs (x - x))%float = false.
Proof.
  rewrite ltb_spec, mul_spec, abs_spec.
  replace (Prim2SF 0%float) with (S754_zero false) by reflexivity.
  destruct (sub_diag_cases x) as [-> | ->];
    unfold SF64mul, SFmul; destruct (Prim2SF z) as [s|s| |s m e];
    try destruct s; reflexivity.
Qed.

(** With fewer than two values the standard deviation is NaN. *)
Lemma std64_few (fsum : list float -> float) (vs : list Z) :
  (length vs <= 1)%nat -> std64 fsum vs = nan.
Proof.
  intros Hlen. unfold std64, var64.
  destruct (Z.leb_spec (count vs - 1) 0) as [_|Hc]; [reflexivity|].
  unfold count in Hc. lia.
Qed.

(** From two values on, pandas' mean and standard deviation are the
    spec's formulas evaluated in binary64. *)
Lemma mean64_some (isum : list float -> float) (vs : list Z) :
  (1 <= length vs)%nat -> mean64 isum vs = float64_mean isum vs.
Proof.
  intros Hlen. unfold mean64, float64_mean.
  destruct (Z.ltb_spec 0 (count vs)) as [_|Hc]; [reflexivity|].
  unfold count in Hc. lia.
Qed.

Lemma std64_many (fsum : list float -> float) (vs : list Z) :
  (2 <= length vs)%nat -> std64 fsum vs = float64_std fsum vs.
Proof.
  intros Hlen. unfold std64, var64, float64_std.
  destruct (Z.leb_spec (count vs - 1) 0) as [Hc|_]; [|reflexivity].
  unfold count in Hc. lia.
Qed.

Lemma exceeds64_few (isum fsum : list float -> float) (z : float)
      (vs : list Z) (t : Z) :
  (length vs <= 1)%nat -> exceeds64 isum fsum z vs t = false.
Proof.
  intros Hlen. unfold exceeds64. rewrite std64_few by exact Hlen.
  apply ltb_mul_nan.
Qed.

Lemma exceeds64_exact (isum fsum : list float -> float) (z : float)
      (vs : list Z) (t : Z) :
  float64_mean isum vs = to_float64 t -> float64_std fsum vs = 0%float ->
  exceeds64 isum fsum z vs t = false.
Proof.
  intros Hm Hs.
  destruct (le_lt_dec (length vs) 1) as [Hlen|Hlen];
    [now apply exceeds64_few|].
  unfold exceeds64. rewrite mean64_some, std64_many by lia.
  rewrite Hm, Hs. apply ltb_mul_zero_diag.
Qed.

Lemma filter_none {A} (f : A -> bool) (l : list A) :
  (forall x, In x l -> f x = false) -> filter f l = [].
Proof.
  induction l as [|x l IH]; simpl; intros Hall; [reflexivity|].
  rewrite (Hall x) by now left. apply IH. intros; apply Hall; now right.
Qed.

Lemma values_length {K V} (s : Series K V) : length (values s) = length s.
Proof. apply length_map. Qed.

Lemma few_days_quiet (isum fsum : list float -> float) (df : DataFrame)
      (z : float) :
  (length (daily_totals df) <= 1)%nat ->
  anomalous_days_float64 isum fsum df z = [].
Proof.
  intros Hlen. apply filter_none. intros [d t] _.
  apply exceeds64_few. now rewrite values_length.
Qed.

(** The rows of one day give at most one daily total. *)
Lemma single_day_few (df : DataFrame) :
  (forall r r', In r df -> In r' df -> timestamp_date r = timestamp_date r') ->
  (length (daily_totals df) <= 1)%nat.
Proof.
  intros Hday.
  pose proof (ascending_index_NoDup
                _ (groupby_sum_ascending int64_add timestamp_date
                                         passenger_count df)) as Hnd.
  pose proof (groupby_sum_index int64_add timestamp_date passenger_count df)
    as Hidx.
  fold (daily_totals df) in Hnd, Hidx.
  rewrite <- (length_map fst (daily_totals df)). fold (index (daily_totals df)).
  destruct (index (daily_totals df)) as [|d1 [|d2 l]]; simpl; try lia.
  exfalso.
  assert (H1 : In d1 (map timestamp_date df)) by (apply Hidx; now left).
  assert (H2 : In d2 (map timestamp_date df))
    by (apply Hidx; right; now left).
  apply in_map_iff in H1, H2.
  destruct H1 as (r1 & <- & Hr1), H2 as (r2 & <- & Hr2).
  inversion Hnd as [|? ? Hn _]. apply Hn. left. now apply Hday.
Qed.

(** In exact arithmetic three consecutive totals lie one standard
    deviation apart: the mean is the middle one and the standard deviation
    is 1. *)
Lemma consecutive_totals_stats (a : Z) :
  sample_mean [a; a + 1; a + 2] = (IZR a + 1)%R
  /\ sample_std [a; a + 1; a + 2] = 1%R.
Proof.
  assert (Hm : sample_mean [a; a + 1; a + 2] = (IZR a + 1)%R).
  { unfold sample_mean. simpl. rewrite !plus_IZR. field. }
  split; [exact Hm|].
  unfold sample_std. rewrite Hm. simpl. rewrite !plus_IZR.
  replace (((IZR a - (IZR a + 1)) * ((IZR a - (IZR a + 1)) * 1)
            + ((IZR a + 1 - (IZR a + 1)) * ((IZR a + 1 - (IZR a + 1)) * 1)
               + ((IZR a + 2 - (IZR a + 1)) * ((IZR a + 2 - (IZR a + 1)) * 1)
                  + 0))) / (1 + 1 + 1 - 1))%R with 1%R by field.
  apply sqrt_1.
Qed.

(** pandas does not decide the spec's inequality.  On the daily totals
    [2^53], [2^53 + 1] and [2^53 + 2] with [z_thresh = 1] the third day
    lies exactly one standard deviation from the mean, which is not more
    than one, and yet it is flagged: in binary64 the middle total is
    rounded down and the standard deviation comes out above 1.  And a
    daily total is the sum of the day in 64 bits: two rides of [2^62]
    passengers on one day give the total [-2^63], not [2^63]. *)
Lemma detect_anomalies_rounds_and_wraps :
  detect_anomalies_float64 sequential_sum sequential_sum
    crowded_days (Some 1%float)
  = Returns ([(jan 3, 2 ^ 53 + 2)],
             [(jan 1, 2 ^ 53); (jan 2, 2 ^ 53 + 1); (jan 3, 2 ^ 53 + 2)])
  /\ ~ (Rabs (IZR (2 ^ 53 + 2)
              - sample_mean [2 ^ 53; 2 ^ 53 + 1; 2 ^ 53 + 2]%Z)
        > 1 * sample_std [2 ^ 53; 2 ^ 53 + 1; 2 ^ 53 + 2]%Z)%R
  /\ detect_anomalies_float64 sequential_sum sequential_sum
       two_crowds (Some 1%float)
     = Returns ([], [(jan 1, - 2 ^ 63)])
  /\ Zsum (map passenger_count (group_rows timestamp_date (jan 1) two_crowds))
     = 2 ^ 63.
Proof.
  split; [vm_compute; reflexivity|].
  split; [|split; vm_compute; reflexivity].
  destruct (consecutive_totals_stats (2 ^ 53)) as [Hm Hs].
  rewrite Hm, Hs, plus_IZR.
  replace (IZR (2 ^ 53) + 2 - (IZR (2 ^ 53) + 1))%R with 1%R by ring.
  rewrite Rabs_R1. lra.
Qed.

(** C1, amended.  [detect_anomalies(table, z_thresh)] returns the pair
    [(anomalous_days, daily_totals)]; [z_thresh] defaults to 2.5.
    [daily_totals] maps each calendar date of the table to the sum of
    [passenger_count] over the rows of that date, ascending by date; the
    sum is taken in 64 bits, so it is the exact sum when that fits into 64
    bits and wraps around otherwise.  With two days or more, a date [d]
    with total [t] is in [anomalous_days] iff
    [abs(t - mean) > z_thresh * std] holds in binary64 floating point,
    with [mean] the sample mean and [std] the unbiased (N-1) sample
    standard deviation of the values of [daily_totals], both evaluated in
    binary64; with fewer than two days no day is flagged.
    [anomalous_days] is [daily_totals] with rows left out, in the same
    order. *)
Theorem detect_anomalies_spec (isum fsum : list float -> float)
        (df : DataFrame) (z_thresh : float) :
  exists anomalous daily,
    detect_anomalies_float64 isum fsum df (Some z_thresh)
    = Returns (anomalous, daily)
    /\ detect_anomalies_float64 isum fsum df None
       = detect_anomalies_float64 isum fsum df (Some 2.5%float)
    /\ ascending_index daily
    /\ (forall d t,
           In (d, t) daily <->
           In d (map timestamp_date df) /\
           t = int64_sum (map passenger_count
                              (group_rows timestamp_date d df)))
    /\ (forall d t,
           In (d, t) daily ->
           in_int64 (Zsum (map passenger_count
                               (group_rows timestamp_date d df))) ->
           t = Zsum (map passenger_count (group_rows timestamp_date d df)))
    /\ ((2 <= length daily)%nat ->
        forall d t,
          In (d, t) anomalous <->
          In (d, t) daily /\
          (z_thresh * float64_std fsum (values daily)
           <? PrimFloat.abs (to_float64 t
                             - float64_mean isum (values daily)))%float
          = true)
    /\ ((length daily <= 1)%nat -> anomalous = [])
    /\ submapping anomalous daily.
Proof.
  exists (anomalous_days_float64 isum fsum df z_thresh), (daily_totals df).
  split; [apply detect_anomalies_float64_returns|].
  split; [apply detect_anomalies_float64_default|].
  split; [apply (groupby_sum_ascending int64_add)|].
  split; [intros d t; apply groupby_int64_In|].
  split; [intros d t; apply groupby_int64_In_exact|].
  split; [|split; [apply few_days_quiet|apply filter_submapping]].
  intros Hlen d t. unfold anomalous_days_float64, exceeds64.
  rewrite filter_In, mean64_some, std64_many
    by (rewrite values_length; lia).
  reflexivity.
Qed.

(** The spec's example: totals 100, 105 and 500 flag nothing at the default
    threshold and everything at 0.1. *)
Example three_days_default :
  detect_anomalies three_days None
  = Returns ([], [(jan 1, 100); (jan 2, 105); (jan 3, 500)]).
Proof. reflexivity. Qed.

Example three_days_low_threshold :
  detect_anomalies three_days (Some 0.1%Q)
  = Returns ([(jan 1, 100); (jan 2, 105); (jan 3, 500)],
             [(jan 1, 100); (jan 2, 105); (jan 3, 500)]).
Proof. reflexivity. Qed.

(** The same in binary64. *)
Example three_days_default_float64 :
  detect_anomalies_float64 sequential_sum sequential_sum three_days None
  = Returns ([], [(jan 1, 100); (jan 2, 105); (jan 3, 500)]).
Proof. vm_compute. reflexivity. Qed.

Example three_days_low_threshold_float64 :
  detect_anomalies_float64 sequential_sum sequential_sum
    three_days (Some 0.1%float)
  = Returns ([(jan 1, 100); (jan 2, 105); (jan 3, 500)],
             [(jan 1, 100); (jan 2, 105); (jan 3, 500)]).
Proof. vm_compute. reflexivity. Qed.





(** ** Edge cases *)

Import PeakCongestionAnalysis PopularRouteAnalysis RegionalPerformanceAnalysis.

(** When all daily totals coincide pandas can still flag days: the mean of
    five totals of [2^53 - 1] comes out one below them in binary64, the
    standard deviation above 1, and with [z_thresh = 0.5] all five days
    are flagged. *)
Lemma equal_totals_are_flagged :
  detect_anomalies_float64 sequential_sum sequential_sum
    equal_crowds (Some 0.5%float)
  = Returns (daily_totals equal_crowds, daily_totals equal_crowds)
  /\ daily_totals equal_crowds
     = [(jan 1, 2 ^ 53 - 1); (jan 2, 2 ^ 53 - 1); (jan 3, 2 ^ 53 - 1);
        (jan 4, 2 ^ 53 - 1); (jan 5, 2 ^ 53 - 1)].
Proof. split; vm_compute; reflexivity. Qed.

(** C6, amended.  Aggregator-level edge cases raise nothing.  On a table
    without rows every aggregator returns an empty mapping or sequence
    ([detect_anomalies] two empty mappings), whatever [n] and [z_thresh].
    On a table whose records lie on a single day [detect_anomalies]
    returns with no day flagged, for every [z_thresh].  On a table whose
    daily totals all coincide it flags no day, for every [z_thresh],
    provided the mean of the totals evaluated in binary64 is their common
    value and their standard deviation evaluated in binary64 is 0;
    rounding can make them differ, and then days are flagged. *)
Theorem edge_cases_return (isum fsum : list float -> float) (n : option Z)
        (z_thresh : option float) :
  (hourly_analysis [] = Returns [] /\
   daily_analysis [] = Returns [] /\
   monthly_analysis [] = Returns [] /\
   yearly_analysis [] = Returns [] /\
   top_routes [] n = Returns [] /\
   top_transfer_points [] n = Returns [] /\
   detect_anomalies_float64 isum fsum [] z_thresh = Returns ([], []) /\
   region_passenger_trends [] = Returns [] /\
   region_revenue_trends [] = Returns [])
  /\ (forall df,
         (forall r r', In r df -> In r' df ->
                       timestamp_date r = timestamp_date r') ->
         detect_anomalies_float64 isum fsum df z_thresh
         = Returns ([], daily_totals df))
  /\ (forall df t,
         (forall d t', In (d, t') (daily_totals df) -> t' = t) ->
         float64_mean isum (values (daily_totals df)) = to_float64 t ->
         float64_std fsum (values (daily_totals df)) = 0%float ->
         detect_anomalies_float64 isum fsum df z_thresh
         = Returns ([], daily_totals df)).
Proof.
  assert (Hz : forall df,
             detect_anomalies_float64 isum fsum df z_thresh
             = Returns (anomalous_days_float64
                          isum fsum df (default_arg 2.5%float z_thresh),
                        daily_totals df))
    by (intros df; destruct z_thresh; reflexivity).
  split; [|split].
  - repeat split; try reflexivity.
    + unfold top_routes. f_equal. apply head_nil.
    + unfold top_transfer_points. f_equal. apply head_nil.
  - intros df Hday. rewrite Hz, few_days_quiet; [reflexivity|].
    now apply single_day_few.
  - intros df t Hall Hm Hs. rewrite Hz. f_equal. f_equal.
    apply filter_none. intros [d t'] Hin. simpl.
    rewrite (Hall d t' Hin). now apply exceeds64_exact.
Qed.

Example single_day_is_quiet :
  detect_anomalies_float64 sequential_sum sequential_sum
    round_trip (Some (-3)%float)
  = Returns ([], [(jan 1, 1)]).
Proof. vm_compute. reflexivity. Qed.

(** Three days of 7 passengers: the float64 mean is 7 and the float64
    standard deviation 0, and nothing is flagged. *)
Example equal_days_are_quiet :
  float64_mean sequential_sum (values (daily_totals equal_days))
  = to_float64 7
  /\ float64_std sequential_sum (values (daily_totals equal_days)) = 0%float
  /\ detect_anomalies_float64 sequential_sum sequential_sum
       equal_days (Some (-3)%float)
     = Returns ([], [(jan 1, 7); (jan 2, 7); (jan 3, 7)]).
Proof. repeat split; vm_compute; reflexivity. Qed.

(** ** Rankings *)

Lemma top_routes_returns (df : DataFrame) (n : option Z) :
  top_routes df n = Returns (head (default_arg 5 n) (route_ranking df)).
Proof. reflexivity. Qed.

Lemma top_transfer_points_returns (df : DataFrame) (n : option Z) :
  top_transfer_points df n
  = Returns (head (default_arg 5 n) (station_ranking df)).
Proof. reflexivity. Qed.

Lemma route_ranking_perm (df : DataFrame) :
  Permutation (route_ranking df)
              (groupby_sum int64_add Route_ID passenger_count df).
Proof.
  unfold route_ranking. apply sort_values_desc_perm.
Qed.

Lemma route_ranking_In (df : DataFrame) (r : string) (s : Z) :
  In (r, s) (route_ranking df)
  <-> In r (map Route_ID df) /\
      s = int64_sum (map passenger_count (group_rows Route_ID r df)).
Proof.
  rewrite <- groupby_int64_In. split; apply Permutation_in.
  - apply route_ranking_perm.
  - symmetry. apply route_ranking_perm.
Qed.

Lemma route_ranking_NoDup (df : DataFrame) : NoDup (index (route_ranking df)).
Proof.
  eapply Permutation_NoDup.
  - unfold index. apply Permutation_map. symmetry. apply route_ranking_perm.
  - apply ascending_index_NoDup, (groupby_sum_ascending int64_add).
Qed.

Lemma station_ranking_In (df : DataFrame) (s : string) (c : Z) :
  In (s, c) (station_ranking df) <-> 0 < c /\ c = station_count s df.
Proof.
  unfold station_ranking, station_count, concat.
  rewrite value_counts_In, <- occurrences_app.
  split.
  - intros [Hin ->]. split; [now apply occurrences_pos|reflexivity].
  - intros [Hpos ->]. split; [now apply occurrences_pos|reflexivity].
Qed.

Lemma station_count_cons (s : string) (r : row) (df : DataFrame) :
  station_count s (r :: df)
  = station_count s df
    + (if keqb s (Entry_Station_ID r) then 1 else 0)
    + (if keqb s (Exit_Station_ID r) then 1 else 0).
Proof.
  unfold station_count, occurrences, count. simpl.
  destruct (keqb s (Entry_Station_ID r)), (keqb s (Exit_Station_ID r));
    simpl length; lia.
Qed.

(** The sum of a route is taken in 64 bits: two rides of [2^62]
    passengers on one route are listed with [-2^63], while their sum is
    [2^63]. *)
Lemma top_routes_sum_wraps :
  top_routes two_crowds (Some 5) = Returns [("R1"%string, - 2 ^ 63)]
  /\ Zsum (map passenger_count (group_rows Route_ID "R1"%string two_crowds))
     = 2 ^ 63.
Proof. split; vm_compute; reflexivity. Qed.

(** C3, amended.  [top_routes(table, n)] sums [passenger_count] per
    [route_id], sorts the (route, sum) pairs descending by the sum and
    keeps the first [n]; [n] defaults to 5.  The sum of a route is taken
    in 64 bits: it is the exact sum whenever that fits into 64 bits, and
    wraps around otherwise.  On the records [(R1,10),(R2,50),(R1,5)] with
    [n=2] it returns [(R2,50),(R1,15)], and on two R1 records of [2^62]
    passengers [(R1,-2^63)]. *)
Theorem top_routes_spec (df : DataFrame) (n : Z) :
  0 <= n ->
  exists ranking,
    top_routes df (Some n) = Returns (firstn (Z.to_nat n) ranking)
    /\ (forall r s,
           In (r, s) ranking <->
           In r (map Route_ID df) /\
           s = int64_sum (map passenger_count (group_rows Route_ID r df)))
    /\ (forall r s,
           In (r, s) ranking ->
           in_int64 (Zsum (map passenger_count (group_rows Route_ID r df))) ->
           s = Zsum (map passenger_count (group_rows Route_ID r df)))
    /\ NoDup (index ranking)
    /\ descending ranking
    /\ top_routes df None = Returns (firstn 5 ranking)
    /\ top_routes three_rides (Some 2) = Returns [("R2", 50); ("R1", 15)]%string
    /\ top_routes two_crowds (Some 2) = Returns [("R1"%string, - 2 ^ 63)].
Proof.
  intros Hn. exists (route_ranking df).
  split; [now rewrite top_routes_returns, head_nonneg|].
  split; [apply route_ranking_In|].
  split.
  { intros r s Hin Hfit. apply route_ranking_In in Hin.
    destruct Hin as [_ ->]. now apply int64_sum_exact. }
  split; [apply route_ranking_NoDup|].
  split; [apply sort_values_desc_descending|].
  split; [reflexivity|]. split; [reflexivity|]. vm_compute. reflexivity.
Qed.

Lemma top_routes_spec_witness :
  0 <= 2 /\
  exists ranking,
    top_routes three_rides (Some 2) = Returns (firstn (Z.to_nat 2) ranking)
    /\ (forall r s,
           In (r, s) ranking <->
           In r (map Route_ID three_rides) /\
           s = int64_sum (map passenger_count
                              (group_rows Route_ID r three_rides)))
    /\ (forall r s,
           In (r, s) ranking ->
           in_int64 (Zsum (map passenger_count
                               (group_rows Route_ID r three_rides))) ->
           s = Zsum (map passenger_count (group_rows Route_ID r three_rides)))
    /\ NoDup (index ranking)
    /\ descending ranking
    /\ top_routes three_rides None = Returns (firstn 5 ranking)
    /\ top_routes three_rides (Some 2) = Returns [("R2", 50); ("R1", 15)]%string
    /\ top_routes two_crowds (Some 2) = Returns [("R1"%string, - 2 ^ 63)].
Proof.
  assert (H : 0 <= 2) by lia.
  split; [exact H|]. exact (top_routes_spec three_rides 2 H).
Defined.

(** C4.  In [top_transfer_points] every record counts once for its entry
    station and once for its exit station: a station's count is the number
    of records entering there plus the number leaving there, so a record
    with equal entry and exit adds 2 to that station.  The result is the
    first [n] stations of the ranking by count, descending.  One record
    with [entry=S1, exit=S1] gives S1 the count 2. *)
Theorem top_transfer_points_spec (df : DataFrame) (n : Z) :
  0 <= n ->
  exists ranking,
    top_transfer_points df (Some n) = Returns (firstn (Z.to_nat n) ranking)
    /\ (forall s c,
           In (s, c) ranking <-> 0 < c /\ c = station_count s df)
    /\ (forall r rest,
           Entry_Station_ID r = Exit_Station_ID r ->
           station_count (Entry_Station_ID r) (r :: rest)
           = station_count (Entry_Station_ID r) rest + 2)
    /\ NoDup (index ranking)
    /\ descending ranking
    /\ top_transfer_points round_trip None = Returns [("S1", 2)]%string.
Proof.
  intros Hn. exists (station_ranking df).
  split; [now rewrite top_transfer_points_returns, head_nonneg|].
  split; [apply station_ranking_In|].
  split.
  { intros r rest He. rewrite station_count_cons, <- He, keqb_refl. lia. }
  split; [apply value_counts_NoDup|].
  split; [apply value_counts_descending|reflexivity].
Qed.

Lemma top_transfer_points_spec_witness :
  0 <= 5 /\
  exists ranking,
    top_transfer_points round_trip (Some 5)
    = Returns (firstn (Z.to_nat 5) ranking)
    /\ (forall s c,
           In (s, c) ranking <-> 0 < c /\ c = station_count s round_trip)
    /\ (forall r rest,
           Entry_Station_ID r = Exit_Station_ID r ->
           station_count (Entry_Station_ID r) (r :: rest)
           = station_count (Entry_Station_ID r) rest + 2)
    /\ NoDup (index ranking)
    /\ descending ranking
    /\ top_transfer_points round_trip None = Returns [("S1", 2)]%string.
Proof.
  assert (H : 0 <= 5) by lia.
  split; [exact H|]. exact (top_transfer_points_spec round_trip 5 H).
Defined.

(** ** Non-positive [n] *)

(** The top-N queries do not fail at [n = 0] nor at [n = -1]: [head]
    returns no row, respectively all rows but the last. *)
Lemma top_n_nonpositive_does_not_fail :
  0 <= 0 /\ -1 <= 0
  /\ top_routes three_rides (Some 0) = Returns []
  /\ top_routes three_rides (Some 0) <> Raises InvalidParameterError
  /\ top_transfer_points three_rides (Some 0) = Returns []
  /\ top_transfer_points three_rides (Some 0) <> Raises InvalidParameterError
  /\ top_routes three_rides (Some (-1)) = Returns [("R2", 50)]%string
  /\ top_transfer_points three_rides (Some (-1))
     = Returns [("S2", 3); ("S1", 2)]%string.
Proof. repeat split; try lia; try reflexivity; discriminate. Qed.

(** C5, amended.  For every table and every [n <= 0] the top-N queries
    return and raise nothing: at [n = 0] the empty sequence, at [n < 0] the
    ranking without its last [-n] rows. *)
Theorem top_n_nonpositive_returns (df : DataFrame) (n : Z) :
  n <= 0 ->
  top_routes df (Some n)
  = Returns (if n =? 0 then []
             else firstn (length (route_ranking df) - Z.to_nat (- n))
                         (route_ranking df))
  /\ top_transfer_points df (Some n)
     = Returns (if n =? 0 then []
                else firstn (length (station_ranking df) - Z.to_nat (- n))
                            (station_ranking df)).
Proof.
  intros Hn. rewrite top_routes_returns, top_transfer_points_returns.
  simpl default_arg.
  destruct (Z.eqb_spec n 0) as [->|Hne].
  - split; reflexivity.
  - rewrite !head_neg by lia. split; reflexivity.
Qed.

Lemma top_n_nonpositive_returns_witness :
  -1 <= 0 /\
  top_routes three_rides (Some (-1))
  = Returns (if -1 =? 0 then []
             else firstn (length (route_ranking three_rides) - Z.to_nat (- -1))
                         (route_ranking three_rides))
  /\ top_transfer_points three_rides (Some (-1))
     = Returns (if -1 =? 0 then []
                else firstn (length (station_ranking three_rides)
                             - Z.to_nat (- -1))
                            (station_ranking three_rides)).
Proof.
  assert (H : -1 <= 0) by lia.
  split; [exact H|]. exact (top_n_nonpositive_returns three_rides (-1) H).
Defined.

(** ** Sum conservation *)

Lemma Zsum_values_perm {K} (s1 s2 : Series K Z) :
  Permutation s1 s2 -> Zsum (values s1) = Zsum (values s2).
Proof. intros Hp. apply Zsum_perm. unfold values. now apply Permutation_map. Qed.

Lemma int64_sum_values_perm {K} (s1 s2 : Series K Z) :
  Permutation s1 s2 -> int64_sum (values s1) = int64_sum (values s2).
Proof.
  intros Hp. apply int64_sum_perm. unfold values. now apply Permutation_map.
Qed.

(** The ranking has one row per distinct route. *)
Lemma route_ranking_length (df : DataFrame) :
  length (route_ranking df) = length (nodup string_dec (map Route_ID df)).
Proof.
  rewrite <- (length_map fst (route_ranking df)).
  apply Permutation_length, NoDup_Permutation.
  - apply route_ranking_NoDup.
  - apply NoDup_nodup.
  - intros r. rewrite nodup_In. fold (index (route_ranking df)).
    split.
    + intros Hin. unfold index in Hin. apply in_map_iff in Hin.
      destruct Hin as ([r' s] & <- & Hin). simpl.
      now apply route_ranking_In in Hin.
    + intros Hin. unfold index.
      change r with (fst (r, int64_sum (map passenger_count
                                            (group_rows Route_ID r df)))).
      apply in_map. now apply route_ranking_In.
Qed.




(** On the spec's three days nothing wraps: the passengers add up to 705
    either way. *)
Example three_days_fit :
  Zsum (map Z.abs (map passenger_count three_days)) < 2 ^ 63
  /\ int64_sum (map passenger_count three_days) = 705
  /\ Zsum (map passenger_count three_days) = 705.
Proof. repeat split. Qed.

(** ** Filtering *)

Import FilterUI.

Lemma isin_In (x : string) (l : list string) : isin x l = true <-> In x l.
Proof.
  unfold isin. rewrite existsb_exists. split.
  - intros (y & Hy & E). apply String.eqb_eq in E. now subst.
  - intros Hin. exists x. split; [exact Hin|apply String.eqb_refl].
Qed.

Lemma deref_new_frame_old (df : DataFrame) (h : heap) (r : ref) :
  (r < length h)%nat -> deref (snd (new_frame df h)) r = deref h r.
Proof. intros Hr. unfold deref, new_frame. simpl. now apply app_nth1. Qed.

Lemma deref_new_frame_new (df : DataFrame) (h : heap) :
  deref (snd (new_frame df h)) (fst (new_frame df h)) = df.
Proof.
  unfold deref, new_frame. simpl.
  rewrite app_nth2, Nat.sub_diag by lia. reflexivity.
Qed.

Lemma new_frame_length (df : DataFrame) (h : heap) :
  length (snd (new_frame df h)) = S (length h).
Proof. unfold new_frame. simpl. rewrite length_app. simpl. lia. Qed.

Lemma new_frame_fresh (df : DataFrame) (h : heap) :
  fst (new_frame df h) = length h.
Proof. reflexivity. Qed.

Lemma filter_filter {A} (f g : A -> bool) (l : list A) :
  filter g (filter f l) = filter (fun x => f x && g x) l.
Proof.
  induction l as [|x l IH]; simpl; [reflexivity|].
  destruct (f x); simpl; [destruct (g x)|]; now rewrite IH.
Qed.

(** What [apply_filters] leaves on the heap and what it returns. *)
Lemma apply_filters_runs (regions routes : list string) (df : ref) (h : heap) :
  (df < length h)%nat ->
  exists df' h',
    apply_filters regions routes df h = (df', h')
    /\ (forall r, (r < length h)%nat -> deref h' r = deref h r)
    /\ (truthy regions || truthy routes = false -> df' = df)
    /\ deref h' df'
       = filter (fun r => (negb (truthy regions) || isin (Region r) regions)
                          && (negb (truthy routes) || isin (Route_ID r) routes))
                (deref h df).
Proof.
  intros Hdf. unfold apply_filters, getitem_mask.
  destruct (truthy regions) eqn:ER; destruct (truthy routes) eqn:EQ; simpl negb.
  - set (m1 := fun r : row => isin (Region r) regions).
    set (m2 := fun r : row => isin (Route_ID r) routes).
    destruct (new_frame (filter m1 (deref h df)) h) as [df1 h1] eqn:E1.
    destruct (new_frame (filter m2 (deref h1 df1)) h1) as [df2 h2] eqn:E2.
    exists df2, h2. split; [reflexivity|].
    pose proof (deref_new_frame_new (filter m1 (deref h df)) h) as N1.
    pose proof (new_frame_length (filter m1 (deref h df)) h) as L1.
    pose proof (deref_new_frame_new (filter m2 (deref h1 df1)) h1) as N2.
    rewrite E1 in N1, L1. rewrite E2 in N2. simpl in N1, N2, L1.
    split; [|split; [discriminate|]].
    + intros r Hr.
      pose proof (deref_new_frame_old (filter m2 (deref h1 df1)) h1 r) as O2.
      pose proof (deref_new_frame_old (filter m1 (deref h df)) h r Hr) as O1.
      rewrite E2 in O2. rewrite E1 in O1. simpl in O1, O2.
      rewrite O2 by lia. exact O1.
    + rewrite N2, N1, filter_filter. reflexivity.
  - set (m1 := fun r : row => isin (Region r) regions).
    destruct (new_frame (filter m1 (deref h df)) h) as [df1 h1] eqn:E1.
    exists df1, h1. split; [reflexivity|].
    pose proof (deref_new_frame_new (filter m1 (deref h df)) h) as N1.
    rewrite E1 in N1. simpl in N1.
    split; [|split; [discriminate|]].
    + intros r Hr.
      pose proof (deref_new_frame_old (filter m1 (deref h df)) h r Hr) as O1.
      rewrite E1 in O1. exact O1.
    + rewrite N1. apply filter_ext. intros r. simpl.
      now rewrite andb_true_r.
  - set (m2 := fun r : row => isin (Route_ID r) routes).
    destruct (new_frame (filter m2 (deref h df)) h) as [df2 h2] eqn:E2.
    exists df2, h2. split; [reflexivity|].
    pose proof (deref_new_frame_new (filter m2 (deref h df)) h) as N2.
    rewrite E2 in N2. simpl in N2.
    split; [|split; [discriminate|]].
    + intros r Hr.
      pose proof (deref_new_frame_old (filter m2 (deref h df)) h r Hr) as O2.
      rewrite E2 in O2. exact O2.
    + rewrite N2. reflexivity.
  - exists df, h. split; [reflexivity|]. split; [reflexivity|].
    split; [reflexivity|].
    symmetry. simpl. clear. induction (deref h df) as [|r l IH];
      simpl; [reflexivity|]. now rewrite IH.
Qed.

Lemma truthy_nonempty {A} (l : list A) : l <> [] -> truthy l = true.
Proof. destruct l; [congruence|reflexivity]. Qed.

(** C2.  With [R] and [Q] both empty the filter returns the table as it is;
    with both non-empty a record is retained iff its region is in [R] and
    its route is in [Q]; with only [R] non-empty the result is the table
    with rows left out, and every surviving record's region is in [R].  The
    input table, like every frame on the heap, is left as it was. *)
Theorem apply_filters_spec (R Q : list string) (df : ref) (h : heap) :
  (df < length h)%nat ->
  exists df' h',
    apply_filters R Q df h = (df', h')
    /\ (forall r, (r < length h)%nat -> deref h' r = deref h r)
    /\ (R = [] -> Q = [] -> df' = df /\ deref h' df' = deref h df)
    /\ (R <> [] -> Q <> [] ->
        deref h' df'
        = filter (fun r => isin (Region r) R && isin (Route_ID r) Q)
                 (deref h df)
        /\ forall r, In r (deref h' df') <->
                     In r (deref h df) /\ In (Region r) R /\ In (Route_ID r) Q)
    /\ (R <> [] -> Q = [] ->
        submapping (deref h' df') (deref h df)
        /\ forall r, In r (deref h' df') -> In (Region r) R).
Proof.
  intros Hdf.
  destruct (apply_filters_runs R Q df h Hdf) as (df' & h' & Hrun & Hold & Hsame & Hres).
  exists df', h'. split; [exact Hrun|]. split; [exact Hold|].
  split; [|split].
  - intros -> ->. split; [now apply Hsame|].
    rewrite Hres. simpl. clear. induction (deref h df) as [|r l IH];
      simpl; [reflexivity|]. now rewrite IH.
  - intros HR HQ. rewrite Hres, !truthy_nonempty by assumption. simpl.
    split; [reflexivity|]. intros r.
    rewrite filter_In, andb_true_iff, !isin_In. tauto.
  - intros HR ->. rewrite Hres, truthy_nonempty by assumption. simpl.
    split; [apply filter_submapping|]. intros r.
    rewrite filter_In, andb_true_iff, isin_In. tauto.
Qed.

Lemma apply_filters_spec_witness :
  (0 < length [three_days])%nat /\
  exists df' h',
    apply_filters ["North"%string] ["R1"%string] 0%nat [three_days] = (df', h')
    /\ (forall r, (r < length [three_days])%nat ->
                  deref h' r = deref [three_days] r)
    /\ (["North"%string] = [] -> ["R1"%string] = [] ->
        df' = 0%nat /\ deref h' df' = deref [three_days] 0%nat)
    /\ (["North"%string] <> [] -> ["R1"%string] <> [] ->
        deref h' df'
        = filter (fun r => isin (Region r) ["North"%string]
                           && isin (Route_ID r) ["R1"%string])
                 (deref [three_days] 0%nat)
        /\ forall r, In r (deref h' df') <->
                     In r (deref [three_days] 0%nat)
                     /\ In (Region r) ["North"%string]
                     /\ In (Route_ID r) ["R1"%string])
    /\ (["North"%string] <> [] -> ["R1"%string] = [] ->
        submapping (deref h' df') (deref [three_days] 0%nat)
        /\ forall r, In r (deref h' df') -> In (Region r) ["North"%string]).
Proof.
  assert (H : (0 < length [three_days])%nat) by (simpl; lia).
  split; [exact H|].
  exact (apply_filters_spec ["North"%string] ["R1"%string] 0%nat
                            [three_days] H).
Defined.

Example apply_filters_north_r1 :
  let '(df', h') :=
    apply_filters ["North"%string] ["R1"%string] 0%nat [three_days] in
  deref h' df' = [ride 1 8 60 "R1" "S1" "S2" "North" 90;
                  ride 2 8 105 "R1" "S1" "S2" "North" 157.5]
  /\ deref h' 0%nat = three_days.
Proof. split; reflexivity. Qed.

(** ** Loading *)

Lemma mapM_Returns {A B} (f : A -> outcome B) (l : list A) :
  (forall a, In a l -> exists b, f a = Returns b) ->
  exists bs, mapM f l = Returns bs /\ Forall2 (fun a b => f a = Returns b) l bs.
Proof.
  induction l as [|a l IH]; simpl; intros Hall.
  - exists []. split; [reflexivity|constructor].
  - destruct (Hall a (or_introl eq_refl)) as (b & Hb).
    destruct IH as (bs & Hbs & HF); [intros; apply Hall; now right|].
    exists (b :: bs). rewrite Hb, Hbs. simpl. split; [reflexivity|].
    now constructor.
Qed.

Lemma mapM_Raises {A B} (f : A -> outcome B) (l : list A) (e : error) :
  (forall a e', f a = Raises e' -> e' = e) ->
  (exists a, In a l /\ f a = Raises e) ->
  mapM f l = Raises e.
Proof.
  intros Honly. induction l as [|a l IH]; simpl; intros (x & Hin & Hx).
  - contradiction.
  - destruct (f a) as [b|e'] eqn:Ea; simpl.
    + destruct Hin as [->|Hin]; [congruence|].
      rewrite IH by eauto. reflexivity.
    + now rewrite (Honly a e' Ea).
Qed.

Lemma mapM_map {A B C} (g : A -> B) (f : B -> outcome C) (l : list A) :
  mapM f (map g l) = mapM (fun a => f (g a)) l.
Proof.
  induction l as [|a l IH]; simpl; [reflexivity|]. now rewrite IH.
Qed.

Section LoaderFacts.
Variable parse_datetime : list (option string) -> string -> parsed.
Import DataLoader.

Lemma convert_cell_Raises (column : list (option string))
      (cell : option string) (e : error) :
  convert_cell parse_datetime column cell = Raises e
  <-> unparseable (parse_datetime column) cell /\ e = SchemaError.
Proof.
  unfold convert_cell, unparseable. destruct cell as [s|].
  - destruct (parse_datetime column s) eqn:E; split;
      try discriminate;
      try (intros [(s' & [= <-] & Hs) _]; congruence).
    + intros [= <-]. split; [now exists s|reflexivity].
    + intros [_ ->]. reflexivity.
  - split; [discriminate|]. intros [(s & Hs & _) _]. discriminate.
Qed.

Lemma convert_cell_Returns (column : list (option string))
      (cell : option string) (t' : option datetime) :
  convert_cell parse_datetime column cell = Returns t' ->
  forall t, t' = Some t <-> parses_to (parse_datetime column) cell t.
Proof.
  unfold convert_cell, parses_to. destruct cell as [s|].
  - destruct (parse_datetime column s) as [t0| |] eqn:E; intros [= <-] t; split;
      try discriminate;
      try (intros (s' & [= <-] & Hs); congruence).
    intros [= <-]. now exists s.
  - intros [= <-] t. split; [discriminate|].
    intros (s & Hs & _). discriminate.
Qed.

Lemma coerce_cell_spec (column : list (option string)) (cell : option string)
      (t : datetime) :
  coerce_cell parse_datetime column cell = Some t
  <-> parses_to (parse_datetime column) cell t.
Proof.
  unfold coerce_cell, parses_to. destruct cell as [s|].
  - destruct (parse_datetime column s) eqn:E; split;
      try discriminate;
      try (intros (s' & [= <-] & Hs); congruence).
    intros [= <-]. now exists s.
  - split; [discriminate|]. intros (s & Hs & _). discriminate.
Qed.

(** The assembled rows, whatever formats the three columns follow. *)
Lemma assign_columns_loaded (tcol dcol acol : list (option string))
      (csv : list csv_row) (timestamps : list (option datetime)) :
  Forall2 (fun c t => convert_cell parse_datetime tcol (csv_Timestamp c)
                      = Returns t) csv timestamps ->
  Forall2 (loaded_from (parse_datetime tcol) (parse_datetime dcol)
                       (parse_datetime acol))
          csv
          (assign_columns csv timestamps
             (map (coerce_cell parse_datetime dcol)
                  (map csv_Departure_Time csv))
             (map (coerce_cell parse_datetime acol)
                  (map csv_Arrival_Time csv))).
Proof.
  induction 1 as [|c t csv timestamps Hc _ IH]; simpl; constructor;
    [|exact IH].
  unfold loaded_from. simpl.
  split; [now apply convert_cell_Returns|].
  split; [intros t0; apply coerce_cell_spec|].
  split; [intros t0; apply coerce_cell_spec|].
  repeat split; reflexivity.
Qed.

Lemma not_parsed_None (parse : string -> parsed) (cell : option string)
      (v : option datetime) :
  (forall t, v = Some t <-> parses_to parse cell t) ->
  unusable parse cell -> v = None.
Proof.
  intros Hv Hu. destruct v as [t|]; [|reflexivity]. exfalso.
  destruct (proj1 (Hv t) eq_refl) as (s & Hs & Hp).
  destruct Hu as [Hn|(s' & Hs' & Hn)]; [congruence|].
  rewrite Hs in Hs'. injection Hs' as <-. exact (Hn t Hp).
Qed.

(** C9, amended.  The loader parses the primary timestamp strictly and
    the optional times leniently.  [load_data] fails with [SchemaError],
    and so returns no table, when some row's [Timestamp] is a text that
    does not parse.  Otherwise it returns the table row for row.  A
    missing [Timestamp] cell and a null text such as ['NaT'] do not fail
    the load: the row is returned with a missing timestamp (NaT).  In
    [Departure_Time] and [Arrival_Time] a cell that is missing or does not
    parse becomes absent; in all three columns a cell holds a date-time
    exactly when its text parses to it. *)
Theorem load_data_strict_and_lenient (csv : list csv_row) :
  let timestamp_parser := parse_datetime (map csv_Timestamp csv) in
  let departure_parser := parse_datetime (map csv_Departure_Time csv) in
  let arrival_parser := parse_datetime (map csv_Arrival_Time csv) in
  ((exists c, In c csv /\ unparseable timestamp_parser (csv_Timestamp c)) ->
   load_data parse_datetime csv = Raises SchemaError)
  /\ ((forall c, In c csv ->
                 ~ unparseable timestamp_parser (csv_Timestamp c)) ->
      exists df,
        load_data parse_datetime csv = Returns df
        /\ Forall2 (loaded_from timestamp_parser departure_parser
                                arrival_parser) csv df
        /\ Forall2 (fun c r =>
                      (unusable timestamp_parser (csv_Timestamp c) ->
                       Timestamp r = None)
                      /\ (unusable departure_parser (csv_Departure_Time c) ->
                          Departure_Time r = None)
                      /\ (unusable arrival_parser (csv_Arrival_Time c) ->
                          Arrival_Time r = None)) csv df).
Proof.
  intros timestamp_parser departure_parser arrival_parser.
  unfold load_data, to_datetime. rewrite mapM_map. split.
  - intros (c & Hin & Hc).
    rewrite (mapM_Raises _ csv SchemaError); [reflexivity| |].
    + intros a e' Ha. now apply convert_cell_Raises in Ha.
    + exists c. split; [exact Hin|]. now apply convert_cell_Raises.
  - intros Hall.
    destruct (mapM_Returns
                (fun c => convert_cell parse_datetime (map csv_Timestamp csv)
                                       (csv_Timestamp c)) csv)
      as (timestamps & Hts & HF).
    { intros c Hin. specialize (Hall c Hin).
      destruct (convert_cell parse_datetime (map csv_Timestamp csv)
                             (csv_Timestamp c)) as [t|e] eqn:E; [eauto|].
      apply convert_cell_Raises in E. tauto. }
    rewrite Hts. simpl bind. eexists. split; [reflexivity|].
    pose proof (assign_columns_loaded
                  (map csv_Timestamp csv) (map csv_Departure_Time csv)
                  (map csv_Arrival_Time csv) csv timestamps HF) as Hrows.
    split; [exact Hrows|].
    eapply Forall2_impl; [|exact Hrows]. intros c r (Ht & Hd & Ha & _).
    repeat split; eapply not_parsed_None; eassumption.
Qed.
End LoaderFacts.

(** A missing [Timestamp] cell and the text ['NaT'] cannot be parsed to a
    date-time, and yet the load does not fail: it returns the rows with a
    missing timestamp. *)
Lemma missing_timestamp_loads :
  DataLoader.load_data parse_eight_o_clock
    [csv_ride None None None;
     csv_ride (Some "NaT"%string) None None;
     csv_ride (Some "2024-01-01 08:00:00"%string) None None]
  = Returns [mkRow None None None 10 "R1" "S1" "S2" "North" 15;
             mkRow None None None 10 "R1" "S1" "S2" "North" 15;
             mkRow (Some (mkDatetime 2024 1 1 8 0 0)) None None
                   10 "R1" "S1" "S2" "North" 15]
  /\ (forall column t, parse_eight_o_clock column "NaT" <> Parsed t).
Proof. split; [reflexivity|]. intros column t. discriminate. Qed.

Example load_data_lenient :
  DataLoader.load_data parse_eight_o_clock
    [csv_ride (Some "2024-01-01 08:00:00"%string) (Some "soon"%string) None]
  = Returns [mkRow (Some (mkDatetime 2024 1 1 8 0 0)) None None
                   10 "R1" "S1" "S2" "North" 15].
Proof. reflexivity. Qed.

Example load_data_strict :
  DataLoader.load_data parse_eight_o_clock
    [csv_ride (Some "2024-01-01 08:00:00"%string) None None;
     csv_ride (Some "yesterday"%string)
              (Some "2024-01-01 08:00:00"%string) None]
  = Raises SchemaError.
Proof. reflexivity. Qed.

(** * Further properties of the analyses *)

(** ** Grouping does not depend on the order of the rows *)

Lemma groupby_sum_perm {K R} `{KeyOrderLaws K} (key : R -> K) (col : R -> Z)
      (df df' : list R) :
  Permutation df df' ->
  groupby_sum int64_add key col df = groupby_sum int64_add key col df'.
Proof. apply groupby_int64_perm. Qed.

Lemma groupby_sum_grouped {K R} `{KeyOrderLaws K} (key : R -> K)
      (col : R -> Z) (df : list R) :
  grouped_totals key col df (groupby_sum int64_add key col df).
Proof.
  split; [apply (groupby_sum_ascending int64_add)|].
  split; [intros k t; apply groupby_int64_In|].
  intros k t. apply groupby_int64_In_exact.
Qed.

(** X1.  The hourly, daily, monthly and yearly aggregation each return a
    series whose labels are the hours (days of the month, months, years)
    that occur in the table, each once and in ascending order, with the sum
    of [passenger_count] over the rows of that label; the sum is taken in
    64 bits, and is the exact sum whenever that fits into 64 bits. *)
Theorem temporal_analysis_totals (df : DataFrame) :
  (exists s, hourly_analysis df = Returns s /\
             grouped_totals (fun r => hour (Timestamp r)) passenger_count df s)
  /\ (exists s, daily_analysis df = Returns s /\
                grouped_totals (fun r => day (Timestamp r)) passenger_count df s)
  /\ (exists s, monthly_analysis df = Returns s /\
                grouped_totals (fun r => month (Timestamp r)) passenger_count df s)
  /\ (exists s, yearly_analysis df = Returns s /\
                grouped_totals (fun r => year (Timestamp r)) passenger_count df s).
Proof.
  repeat split; eexists; (split; [reflexivity|apply groupby_sum_grouped]).
Qed.

(** X2.  The aggregations by key do not depend on the order of the rows:
    on two tables with the same rows in different orders the four temporal
    aggregations, [top_routes], [region_passenger_trends] and
    [detect_anomalies] return the same results. *)
Theorem aggregations_ignore_row_order (df df' : DataFrame) (n : option Z)
        (z_thresh : option Q) :
  Permutation df df' ->
  hourly_analysis df = hourly_analysis df'
  /\ daily_analysis df = daily_analysis df'
  /\ monthly_analysis df = monthly_analysis df'
  /\ yearly_analysis df = yearly_analysis df'
  /\ top_routes df n = top_routes df' n
  /\ region_passenger_trends df = region_passenger_trends df'
  /\ detect_anomalies df z_thresh = detect_anomalies df' z_thresh.
Proof.
  intros Hp.
  unfold hourly_analysis, daily_analysis, monthly_analysis, yearly_analysis,
    top_routes, region_passenger_trends, detect_anomalies.
  repeat split;
    now rewrite (groupby_sum_perm _ passenger_count df df' Hp).
Qed.

Lemma aggregations_ignore_row_order_witness :
  Permutation three_days (rev three_days) /\
  hourly_analysis three_days = hourly_analysis (rev three_days)
  /\ daily_analysis three_days = daily_analysis (rev three_days)
  /\ monthly_analysis three_days = monthly_analysis (rev three_days)
  /\ yearly_analysis three_days = yearly_analysis (rev three_days)
  /\ top_routes three_days (Some 1) = top_routes (rev three_days) (Some 1)
  /\ region_passenger_trends three_days
     = region_passenger_trends (rev three_days)
  /\ detect_anomalies three_days None = detect_anomalies (rev three_days) None.
Proof.
  assert (H : Permutation three_days (rev three_days))
    by apply Permutation_rev.
  split; [exact H|].
  exact (aggregations_ignore_row_order three_days (rev three_days)
                                        (Some 1) None H).
Defined.

(** ** Lengths and totals of the rankings *)

Lemma head_count {A} (n : Z) (s : list A) :
  count (head n s) = head_length n (count s).
Proof.
  unfold head, head_length, count.
  destruct (Z.leb_spec 0 n); rewrite length_firstn; lia.
Qed.

Section RankingFacts.
Variable key : row -> string.

Lemma ranking_perm (col : row -> Z) (df : DataFrame) :
  Permutation (sort_values_desc Z.ltb (groupby_sum int64_add key col df))
              (groupby_sum int64_add key col df).
Proof. apply sort_values_desc_perm. Qed.

Lemma ranking_In (col : row -> Z) (df : DataFrame) (k : string) (t : Z) :
  In (k, t) (sort_values_desc Z.ltb (groupby_sum int64_add key col df))
  <-> In k (map key df) /\ t = int64_sum (map col (group_rows key k df)).
Proof.
  rewrite <- groupby_int64_In. split; apply Permutation_in.
  - apply ranking_perm.
  - symmetry. apply ranking_perm.
Qed.

Lemma groupby_sum_distinct {V} (add : V -> V -> V) (col : row -> V)
      (df : DataFrame) :
  count (groupby_sum add key col df) = distinct (map key df).
Proof.
  unfold distinct, count. f_equal.
  rewrite <- (length_map fst (groupby_sum add key col df)).
  apply Permutation_length, NoDup_Permutation.
  - apply ascending_index_NoDup, groupby_sum_ascending.
  - apply NoDup_nodup.
  - intros k. rewrite nodup_In. apply (groupby_sum_index add).
Qed.

Lemma sorted_groupby_NoDup {V} (add : V -> V -> V) (ltb : V -> V -> bool)
      (col : row -> V) (df : DataFrame) :
  NoDup (index (sort_values_desc ltb (groupby_sum add key col df))).
Proof.
  eapply Permutation_NoDup.
  - unfold index. apply Permutation_map. symmetry.
    apply sort_values_desc_perm.
  - apply ascending_index_NoDup, groupby_sum_ascending.
Qed.

Lemma sorted_groupby_count {V} (add : V -> V -> V) (ltb : V -> V -> bool)
      (col : row -> V) (df : DataFrame) :
  count (sort_values_desc ltb (groupby_sum add key col df))
  = distinct (map key df).
Proof.
  rewrite <- (groupby_sum_distinct add col df). unfold count. f_equal.
  apply Permutation_length, sort_values_desc_perm.
Qed.
End RankingFacts.

Lemma count_table_total {K} `{KeyOrderLaws K} (l : list K) :
  Zsum (values (count_table l)) = count l.
Proof.
  induction l as [|k l IH] using rev_ind; [reflexivity|].
  rewrite count_table_snoc.
  assert (Hstep : forall s : Series K Z,
             Zsum (values (count_label k s)) = Zsum (values s) + 1).
  { unfold values. induction s as [|[k1 c1] s IHs]; simpl.
    - unfold Zsum. simpl. lia.
    - destruct (keqb k k1); simpl; rewrite ?Zsum_cons; lia. }
  rewrite Hstep, IH. unfold count. rewrite length_app. simpl. lia.
Qed.

Lemma occurrences_le_count {K} `{KeyOrder K} (k : K) (l : list K) :
  occurrences k l <= count l.
Proof.
  unfold occurrences, count. apply inj_le.
  induction l as [|a l IH]; simpl; [lia|].
  destruct (keqb k a); simpl; lia.
Qed.

Lemma station_ranking_count (df : DataFrame) :
  count (station_ranking df)
  = distinct (map Entry_Station_ID df ++ map Exit_Station_ID df).
Proof.
  unfold distinct, count. f_equal.
  rewrite <- (length_map fst (station_ranking df)).
  apply Permutation_length, NoDup_Permutation.
  - apply value_counts_NoDup.
  - apply NoDup_nodup.
  - intros s. rewrite nodup_In. unfold station_ranking, concat. split.
    + intros Hin. apply in_map_iff in Hin.
      destruct Hin as ([s' c] & <- & Hin). simpl.
      now apply value_counts_In in Hin.
    + intros Hin.
      change s with (fst (s, occurrences s (map Entry_Station_ID df
                                          ++ map Exit_Station_ID df))).
      apply in_map. now apply value_counts_In.
Qed.

(** X3.  The number of rows the top-N queries return, for every integer
    [n]: with [n >= 0] the smaller of [n] and the number of distinct routes
    (stations), with [n < 0] the number of distinct routes (stations) less
    [-n], and never below zero. *)
Theorem top_n_row_count (df : DataFrame) (n : Z) :
  (exists rows,
      top_routes df (Some n) = Returns rows /\
      count rows = head_length n (distinct (map Route_ID df)))
  /\ (exists rows,
         top_transfer_points df (Some n) = Returns rows /\
         count rows
         = head_length n (distinct (map Entry_Station_ID df
                                    ++ map Exit_Station_ID df))).
Proof.
  split; eexists; (split; [reflexivity|]); simpl default_arg;
    rewrite head_count; f_equal.
  - apply (sorted_groupby_count Route_ID).
  - apply station_ranking_count.
Qed.

(** X4.  Every station [top_transfer_points] lists has a count between 1
    and twice the number of records, and when [n] is at least the number
    of distinct stations the counts add up to exactly twice the number of
    records. *)
Theorem top_transfer_points_totals (df : DataFrame) (n : Z) :
  distinct (map Entry_Station_ID df ++ map Exit_Station_ID df) <= n ->
  exists rows,
    top_transfer_points df (Some n) = Returns rows
    /\ Zsum (values rows) = 2 * count df
    /\ forall s c, In (s, c) rows -> 1 <= c <= 2 * count df.
Proof.
  intros Hn. exists (station_ranking df).
  split.
  { rewrite top_transfer_points_returns. simpl default_arg.
    rewrite head_all; [reflexivity|]. now rewrite station_ranking_count. }
  split.
  - unfold station_ranking, value_counts.
    rewrite (Zsum_values_perm _ _ (sort_values_desc_perm Z.ltb _)).
    rewrite count_table_total. unfold concat, count.
    rewrite length_app, !length_map. lia.
  - intros s c Hin. apply station_ranking_In in Hin.
    destruct Hin as [Hpos ->]. split; [lia|].
    unfold station_count.
    pose proof (occurrences_le_count s (map Entry_Station_ID df)) as H1.
    pose proof (occurrences_le_count s (map Exit_Station_ID df)) as H2.
    unfold count in *. rewrite !length_map in *. lia.
Qed.

Lemma top_transfer_points_totals_witness :
  distinct (map Entry_Station_ID three_rides ++ map Exit_Station_ID three_rides)
  <= 3 /\
  exists rows,
    top_transfer_points three_rides (Some 3) = Returns rows
    /\ Zsum (values rows) = 2 * count three_rides
    /\ forall s c, In (s, c) rows -> 1 <= c <= 2 * count three_rides.
Proof.
  assert (H : distinct (map Entry_Station_ID three_rides
                        ++ map Exit_Station_ID three_rides) <= 3)
    by (vm_compute; discriminate).
  split; [exact H|]. exact (top_transfer_points_totals three_rides 3 H).
Defined.

(** X5.  [region_passenger_trends] returns every region of the table
    exactly once, with the sum of [passenger_count] over the rows of that
    region, sorted descending by that sum and never truncated; the sum is
    taken in 64 bits, and is the exact sum whenever that fits into 64
    bits. *)
Theorem region_passenger_trends_spec (df : DataFrame) :
  exists trends,
    region_passenger_trends df = Returns trends
    /\ (forall r t,
           In (r, t) trends <->
           In r (map Region df) /\
           t = int64_sum (map passenger_count (group_rows Region r df)))
    /\ (forall r t,
           In (r, t) trends ->
           in_int64 (Zsum (map passenger_count (group_rows Region r df))) ->
           t = Zsum (map passenger_count (group_rows Region r df)))
    /\ NoDup (index trends)
    /\ descending trends
    /\ count trends = distinct (map Region df).
Proof.
  eexists. split; [reflexivity|].
  split; [apply ranking_In|].
  split.
  { intros r t Hin Hfit. apply ranking_In in Hin. destruct Hin as [_ ->].
    now apply int64_sum_exact. }
  split; [apply sorted_groupby_NoDup|].
  split; [apply sort_values_desc_descending|apply sorted_groupby_count].
Qed.

(** ** How far a total can lie from the mean *)

Section Deviations.
Variable vs : list Z.

#[local] Abbreviation dev := (deviation vs).
#[local] Abbreviation S := (squared_deviations vs).

Lemma squares_as_products :
  Rsum (map (fun x => (IZR x - sample_mean vs) ^ 2)%R vs) = S.
Proof.
  unfold squared_deviations, deviation. apply Rsum_ext. intros x _. ring.
Qed.

Lemma S_nonneg : (0 <= S)%R.
Proof. rewrite <- squares_as_products. apply squares_nonneg. Qed.

Lemma sample_std_square :
  (2 <= length vs)%nat ->
  (sample_std vs * sample_std vs = S / (INR (length vs) - 1))%R.
Proof.
  intros Hlen. unfold sample_std. rewrite squares_as_products.
  apply sqrt_sqrt.
  assert (2 <= INR (length vs))%R by (apply (le_INR 2), Hlen).
  apply Rmult_le_pos; [apply S_nonneg|].
  left. apply Rinv_0_lt_compat. lra.
Qed.

(** A flagged value, in squares. *)
Lemma flagged_square (z : R) (t : Z) :
  (0 <= z)%R -> (2 <= length vs)%nat ->
  (Rabs (IZR t - sample_mean vs) > z * sample_std vs)%R ->
  (z * z * S < (INR (length vs) - 1) * (dev t * dev t))%R.
Proof.
  intros Hz Hlen Hgt. fold (deviation vs t) in Hgt.
  pose proof (sample_std_square Hlen) as Hsq.
  pose proof (sample_std_nonneg vs) as Hs.
  assert (Hn : (2 <= INR (length vs))%R) by (apply (le_INR 2), Hlen).
  assert (Habs : (Rabs (dev t) * Rabs (dev t) = dev t * dev t)%R).
  { rewrite <- Rabs_mult. apply Rabs_pos_eq. nra. }
  assert (Hzs : (0 <= z * sample_std vs)%R) by nra.
  assert (Hlt : ((z * sample_std vs) * (z * sample_std vs)
                 < Rabs (dev t) * Rabs (dev t))%R) by nra.
  rewrite Habs in Hlt.
  replace ((z * sample_std vs) * (z * sample_std vs))%R
    with (z * z * (sample_std vs * sample_std vs))%R in Hlt by ring.
  rewrite Hsq in Hlt.
  apply (Rmult_lt_compat_l (INR (length vs) - 1)) in Hlt; [|lra].
  replace ((INR (length vs) - 1) * (z * z * (S / (INR (length vs) - 1))))%R
    with (z * z * S)%R in Hlt by (field; lra).
  exact Hlt.
Qed.
End Deviations.

(** ** Thresholds *)

Lemma filter_length_le {A} (f : A -> bool) (l : list A) :
  (length (filter f l) <= length l)%nat.
Proof. induction l as [|x l IH]; simpl; [lia|]. destruct (f x); simpl; lia. Qed.

Lemma filter_length_all {A} (f : A -> bool) (l : list A) :
  length (filter f l) = length l -> forall x, In x l -> f x = true.
Proof.
  induction l as [|x l IH]; simpl; intros Hlen y Hy; [contradiction|].
  pose proof (filter_length_le f l) as Hle.
  destruct (f x) eqn:E; simpl in Hlen; [|lia].
  destruct Hy as [<-|Hy]; [exact E|]. apply IH; [lia|exact Hy].
Qed.

Lemma Rsum_above {A} (g : A -> R) (c : R) (l : list A) :
  l <> [] -> (forall x, In x l -> c < g x)%R ->
  (INR (length l) * c < Rsum (map g l))%R.
Proof.
  induction l as [|x [|y l] IH]; intros Hne Hall; [congruence| |].
  - simpl. specialize (Hall x (or_introl eq_refl)). lra.
  - change (map g (x :: y :: l)) with (g x :: map g (y :: l)).
    change (length (x :: y :: l)) with (Datatypes.S (length (y :: l))).
    rewrite S_INR. cbn [Rsum fold_right]. fold (Rsum (map g (y :: l))).
    assert (H1 : (c < g x)%R) by (apply Hall; now left).
    assert (H2 : (INR (length (y :: l)) * c < Rsum (map g (y :: l)))%R).
    { apply IH; [discriminate|]. intros w Hw. apply Hall. now right. }
    lra.
Qed.



(** ** More on filtering *)

Lemma unique_In (x : string) (l : list string) : In x (unique l) <-> In x l.
Proof.
  unfold unique.
  assert (Hgen : forall seen,
             In x (fold_left (fun seen y => if isin y seen then seen
                                            else seen ++ [y]) l seen)
             <-> In x seen \/ In x l).
  { induction l as [|y l IH]; intros seen; simpl; [tauto|].
    rewrite IH. destruct (isin y seen) eqn:E.
    - apply isin_In in E. split; [tauto|].
      intros [Hs|[<-|Hl]]; auto.
    - rewrite in_app_iff. simpl. tauto. }
  rewrite Hgen. simpl. tauto.
Qed.

Lemma filter_idem {A} (f : A -> bool) (l : list A) :
  filter f (filter f l) = filter f l.
Proof.
  rewrite filter_filter. apply filter_ext. intros x. now destruct (f x).
Qed.

Lemma truthy_nil_iff {A} (l : list A) : truthy l = false <-> l = [].
Proof. destruct l; simpl; split; congruence. Qed.

(** What [apply_filters] does to the heap: one new frame per non-empty
    selection, and the frame it returns is on the heap. *)
Lemma apply_filters_heap (regions routes : list string) (df : ref) (h : heap) :
  (df < length h)%nat ->
  (fst (apply_filters regions routes df h)
   < length (snd (apply_filters regions routes df h)))%nat
  /\ length (snd (apply_filters regions routes df h))
     = (length h + (if truthy regions then 1 else 0)
        + (if truthy routes then 1 else 0))%nat
  /\ (truthy regions || truthy routes = true ->
      (length h <= fst (apply_filters regions routes df h))%nat).
Proof.
  intros Hdf. unfold apply_filters, getitem_mask, new_frame.
  destruct (truthy regions), (truthy routes); simpl;
    rewrite ?length_app; simpl; repeat split; try lia; discriminate.
Qed.

(** X10.  [apply_filters] puts one new frame on the heap for each
    non-empty selection and returns a frame of the heap: the input frame
    itself when both selections are empty, else a new one.  With only
    routes selected the result holds exactly the rows whose route is
    selected, in their order.  Applying the same selections to the result
    changes nothing any more. *)
Theorem apply_filters_again (R Q : list string) (df : ref) (h : heap) :
  (df < length h)%nat ->
  exists df1 h1 df2 h2,
    apply_filters R Q df h = (df1, h1)
    /\ apply_filters R Q df1 h1 = (df2, h2)
    /\ (df1 < length h1)%nat
    /\ length h1 = (length h + (if truthy R then 1 else 0)
                    + (if truthy Q then 1 else 0))%nat
    /\ (R <> [] \/ Q <> [] -> (length h <= df1)%nat)
    /\ (R = [] -> Q <> [] ->
        deref h1 df1 = filter (fun r => isin (Route_ID r) Q) (deref h df))
    /\ deref h2 df2 = deref h1 df1.
Proof.
  intros Hdf.
  destruct (apply_filters_runs R Q df h Hdf)
    as (df1 & h1 & Hrun1 & _ & _ & Hres1).
  pose proof (apply_filters_heap R Q df h Hdf) as (Hvalid & Hlen & Hfresh).
  rewrite Hrun1 in Hvalid, Hlen, Hfresh. simpl in Hvalid, Hlen, Hfresh.
  destruct (apply_filters_runs R Q df1 h1 Hvalid)
    as (df2 & h2 & Hrun2 & _ & _ & Hres2).
  exists df1, h1, df2, h2.
  split; [exact Hrun1|]. split; [exact Hrun2|]. split; [exact Hvalid|].
  split; [exact Hlen|]. split; [|split].
  - intros Hor. apply Hfresh.
    destruct Hor as [HR|HQ].
    + now rewrite (truthy_nonempty R HR).
    + rewrite (truthy_nonempty Q HQ). apply orb_true_r.
  - intros -> HQ. rewrite Hres1, (truthy_nonempty Q HQ). simpl.
    reflexivity.
  - rewrite Hres2, Hres1. apply filter_idem.
Qed.

Lemma apply_filters_again_witness :
  (0 < length [three_days])%nat /\
  exists df1 h1 df2 h2,
    apply_filters [] ["R2"%string] 0%nat [three_days] = (df1, h1)
    /\ apply_filters [] ["R2"%string] df1 h1 = (df2, h2)
    /\ (df1 < length h1)%nat
    /\ length h1 = (length [three_days]
                    + (if truthy (@nil string) then 1 else 0)
                    + (if truthy ["R2"%string] then 1 else 0))%nat
    /\ (@nil string <> [] \/ ["R2"%string] <> [] ->
        (length [three_days] <= df1)%nat)
    /\ (@nil string = [] -> ["R2"%string] <> [] ->
        deref h1 df1
        = filter (fun r => isin (Route_ID r) ["R2"%string])
                 (deref [three_days] 0%nat))
    /\ deref h2 df2 = deref h1 df1.
Proof.
  assert (H : (0 < length [three_days])%nat) by (simpl; lia).
  split; [exact H|].
  exact (apply_filters_again [] ["R2"%string] 0%nat [three_days] H).
Defined.

(** X11.  The route multiselect offers only routes of rows in the selected
    regions, and selections taken from what the two multiselects offer
    never filter a non-empty table down to nothing. *)
Theorem offered_selections_keep_rows (R Q : list string) (df : ref) (h : heap) :
  (df < length h)%nat ->
  deref h df <> [] ->
  incl R (region_options (deref h df)) ->
  incl Q (route_options R (deref h df)) ->
  exists df' h',
    apply_filters R Q df h = (df', h')
    /\ deref h' df' <> []
    /\ (R <> [] ->
        forall q, In q (route_options R (deref h df)) ->
                  exists r, In r (deref h df) /\ Route_ID r = q
                            /\ In (Region r) R).
Proof.
  intros Hdf Hne HR HQ.
  destruct (apply_filters_runs R Q df h Hdf)
    as (df' & h' & Hrun & _ & _ & Hres).
  exists df', h'. split; [exact Hrun|].
  assert (Hopt : forall q, In q (route_options R (deref h df)) ->
            exists r, In r (deref h df) /\ Route_ID r = q
                      /\ (R <> [] -> In (Region r) R)).
  { intros q Hq. unfold route_options in Hq. apply (proj1 (unique_In _ _)) in Hq.
    apply in_map_iff in Hq. destruct Hq as (r & <- & Hr).
    destruct R as [|r0 R'].
    - simpl in Hr. exists r. repeat split; [exact Hr|congruence].
    - simpl truthy in Hr. cbv iota in Hr. apply filter_In in Hr.
      destruct Hr as [Hr Hin]. apply isin_In in Hin.
      exists r. repeat split; auto. }
  split.
  - rewrite Hres.
    assert (Hex : exists r, In r (deref h df)
                            /\ (negb (truthy R) || isin (Region r) R)
                               && (negb (truthy Q) || isin (Route_ID r) Q)
                               = true).
    { destruct Q as [|q Q'].
      - destruct R as [|r0 R'].
        + destruct (deref h df) as [|r l]; [congruence|].
          exists r. split; [now left|reflexivity].
        + assert (Hr0 : In r0 (region_options (deref h df)))
            by (apply HR; now left).
          unfold region_options in Hr0. apply (proj1 (unique_In _ _)) in Hr0.
          apply in_map_iff in Hr0. destruct Hr0 as (r & Er & Hr).
          exists r. split; [exact Hr|].
          apply andb_true_iff. split; [|reflexivity].
          cbn [truthy negb orb]. apply isin_In. rewrite Er. now left.
      - destruct (Hopt q (HQ q (or_introl eq_refl))) as (r & Hr & Eq & Hreg).
        exists r. split; [exact Hr|].
        apply andb_true_iff. split.
        + destruct R as [|r0 R']; [reflexivity|]. cbn [truthy negb orb].
          apply isin_In, Hreg. discriminate.
        + cbn [truthy negb orb]. apply isin_In. rewrite Eq. now left. }
    destruct Hex as (r & Hr & Hkeep). intros E.
    assert (Hin : In r (filter
                          (fun r => (negb (truthy R) || isin (Region r) R)
                                    && (negb (truthy Q) || isin (Route_ID r) Q))
                          (deref h df)))
      by (apply filter_In; now split).
    rewrite E in Hin. contradiction.
  - intros HRne q Hq. destruct (Hopt q Hq) as (r & Hr & Eq & Hreg).
    exists r. auto.
Qed.

Lemma offered_selections_keep_rows_witness :
  (0 < length [three_days])%nat /\
  deref [three_days] 0%nat <> [] /\
  incl ["North"%string] (region_options (deref [three_days] 0%nat)) /\
  incl ["R1"%string] (route_options ["North"%string] (deref [three_days] 0%nat)) /\
  exists df' h',
    apply_filters ["North"%string] ["R1"%string] 0%nat [three_days] = (df', h')
    /\ deref h' df' <> []
    /\ (["North"%string] <> [] ->
        forall q, In q (route_options ["North"%string]
                                      (deref [three_days] 0%nat)) ->
                  exists r, In r (deref [three_days] 0%nat) /\ Route_ID r = q
                            /\ In (Region r) ["North"%string]).
Proof.
  assert (H1 : (0 < length [three_days])%nat) by (simpl; lia).
  assert (H2 : deref [three_days] 0%nat <> []) by discriminate.
  assert (H3 : incl ["North"%string]
                    (region_options (deref [three_days] 0%nat))).
  { intros x [<-|[]]. vm_compute. right. now left. }
  assert (H4 : incl ["R1"%string]
                    (route_options ["North"%string]
                                   (deref [three_days] 0%nat))).
  { intros x [<-|[]]. vm_compute. now left. }
  split; [exact H1|]. split; [exact H2|]. split; [exact H3|].
  split; [exact H4|].
  exact (offered_selections_keep_rows ["North"%string] ["R1"%string] 0%nat
                                      [three_days] H1 H2 H3 H4).
Defined.

(** ** Filtering and ranking together *)

Section SelectedGroups.
Variables (key : row -> string) (col : row -> Z) (selected : list string).

#[local] Abbreviation kept := (filter (fun r => isin (key r) selected)).

Lemma kept_keys (df : DataFrame) (k : string) :
  In k (map key (kept df)) <-> In k (map key df) /\ In k selected.
Proof.
  rewrite !in_map_iff. split.
  - intros (r & <- & Hr). apply filter_In in Hr. destruct Hr as [Hr Hs].
    apply isin_In in Hs. split; [now exists r|exact Hs].
  - intros [(r & <- & Hr) Hs]. exists r. split; [reflexivity|].
    apply filter_In. split; [exact Hr|now apply isin_In].
Qed.

Lemma kept_group (df : DataFrame) (k : string) :
  In k selected -> group_rows key k (kept df) = group_rows key k df.
Proof.
  intros Hs. unfold group_rows. rewrite filter_filter.
  apply filter_ext. intros r.
  destruct (keqb (key r) k) eqn:E; [|apply andb_false_r].
  apply keqb_eq in E. rewrite E, andb_true_r. now apply isin_In.
Qed.

(** Selecting keys removes the other groups from the ranking and leaves
    the totals of the selected ones as they were. *)
Lemma kept_ranking (df : DataFrame) (k : string) (t : Z) :
  In (k, t) (sort_values_desc Z.ltb
                               (groupby_sum int64_add key col (kept df)))
  <-> In (k, t) (sort_values_desc Z.ltb (groupby_sum int64_add key col df))
      /\ In k selected.
Proof.
  rewrite !ranking_In, kept_keys. split.
  - intros [[Hk Hs] ->]. now rewrite kept_group.
  - intros [[Hk ->] Hs]. now rewrite kept_group.
Qed.
End SelectedGroups.

(** X12.  Filtering and ranking agree.  After a selection of regions alone
    [region_passenger_trends] lists exactly the selected regions of the
    unfiltered trends, each with the total it had; after a selection of
    routes alone [top_routes], asked for as many rows as the table has,
    lists exactly the selected routes, each with the total it had. *)
Theorem filtering_keeps_group_totals (R Q : list string) (df : ref) (h : heap) :
  (df < length h)%nat -> R <> [] -> Q <> [] ->
  (exists df' h' before after,
      apply_filters R [] df h = (df', h')
      /\ region_passenger_trends (deref h df) = Returns before
      /\ region_passenger_trends (deref h' df') = Returns after
      /\ forall r t, In (r, t) after <-> In (r, t) before /\ In r R)
  /\ (exists df' h' before after,
         apply_filters [] Q df h = (df', h')
         /\ top_routes (deref h df) (Some (count (deref h df)))
            = Returns before
         /\ top_routes (deref h' df') (Some (count (deref h' df')))
            = Returns after
         /\ forall r t, In (r, t) after <-> In (r, t) before /\ In r Q).
Proof.
  intros Hdf HR HQ. split.
  - destruct (apply_filters_runs R [] df h Hdf)
      as (df' & h' & Hrun & _ & _ & Hres).
    rewrite (truthy_nonempty R HR) in Hres. cbn [truthy negb orb] in Hres.
    exists df', h'. do 2 eexists.
    split; [exact Hrun|]. split; [reflexivity|]. split; [reflexivity|].
    intros r t. rewrite Hres.
    rewrite (filter_ext _ (fun r => isin (Region r) R))
      by (intros a; apply andb_true_r).
    apply kept_ranking.
  - destruct (apply_filters_runs [] Q df h Hdf)
      as (df' & h' & Hrun & _ & _ & Hres).
    rewrite (truthy_nonempty Q HQ) in Hres. cbn [truthy negb orb] in Hres.
    exists df', h'. do 2 eexists.
    split; [exact Hrun|].
    assert (Hfull : forall t : DataFrame,
               head (count t) (route_ranking t) = route_ranking t).
    { intros t. apply head_all. unfold count.
      rewrite route_ranking_length. apply inj_le.
      etransitivity; [apply NoDup_incl_length;
                      [apply NoDup_nodup
                      |intros x Hx; apply nodup_In in Hx; exact Hx]|].
      now rewrite length_map. }
    split; [rewrite top_routes_returns; simpl default_arg;
            now rewrite Hfull|].
    split; [rewrite top_routes_returns; simpl default_arg;
            now rewrite Hfull|].
    intros r t. rewrite Hres. unfold route_ranking.
    rewrite (filter_ext _ (fun r => isin (Route_ID r) Q))
      by (intros a; reflexivity).
    apply kept_ranking.
Qed.

Lemma filtering_keeps_group_totals_witness :
  (0 < length [three_days])%nat /\ ["North"%string] <> [] /\
  ["R2"%string] <> [] /\
  (exists df' h' before after,
      apply_filters ["North"%string] [] 0%nat [three_days] = (df', h')
      /\ region_passenger_trends (deref [three_days] 0%nat) = Returns before
      /\ region_passenger_trends (deref h' df') = Returns after
      /\ forall r t, In (r, t) after <->
                     In (r, t) before /\ In r ["North"%string])
  /\ (exists df' h' before after,
         apply_filters [] ["R2"%string] 0%nat [three_days] = (df', h')
         /\ top_routes (deref [three_days] 0%nat)
                       (Some (count (deref [three_days] 0%nat)))
            = Returns before
         /\ top_routes (deref h' df') (Some (count (deref h' df')))
            = Returns after
         /\ forall r t, In (r, t) after <->
                        In (r, t) before /\ In r ["R2"%string]).
Proof.
  assert (H1 : (0 < length [three_days])%nat) by (simpl; lia).
  assert (H2 : ["North"%string] <> []) by discriminate.
  assert (H3 : ["R2"%string] <> []) by discriminate.
  split; [exact H1|]. split; [exact H2|]. split; [exact H3|].
  exact (filtering_keeps_group_totals ["North"%string] ["R2"%string] 0%nat
                                      [three_days] H1 H2 H3).
Defined.
